(** * Verification of the rack-manager firmware: packet codec, protocol
    roles, timer wheel, executor and MPSC queue.

    Shallow embedding of the Rust sources under [code/protocol],
    [code/utils] and [code/executor].  A Rust panic (explicit [panic!],
    [todo!], a failed [unwrap]/[expect], an out-of-range index or slice)
    is the [Panic] outcome of the [outcome] monad below; a Rust [Result] is
    the [result] type. *)

From Stdlib Require Import ZArith Lia Bool.
From stdpp Require Import base list gmap.

(* ------------------------------------------------------------------ *)
(** ** Panicking computations *)

Inductive outcome (A : Type) : Type :=
| Ret (a : A)
| Panic.
Arguments Ret {A} a.
Arguments Panic {A}.

Definition obind {A B} (m : outcome A) (k : A -> outcome B) : outcome B :=
  match m with
  | Ret a => k a
  | Panic => Panic
  end.

Notation "'let!' x := m 'in' k" := (obind m (fun x => k))
  (at level 200, x name, m at level 100, k at level 200).

(** Rust's [Result]. *)
Inductive result (A E : Type) : Type :=
| Ok (a : A)
| Err (e : E).
Arguments Ok {A E} a.
Arguments Err {A E} e.

(** [buf[i]] *)
Definition idx (buf : list Z) (i : nat) : outcome Z :=
  match buf !! i with
  | Some x => Ret x
  | None => Panic
  end.

(** [buf[i] = v] *)
Definition set (buf : list Z) (i : nat) (v : Z) : outcome (list Z) :=
  if decide (i < length buf) then Ret (<[i := v]> buf) else Panic.

(** [&buf[a..b]] *)
Definition slice (buf : list Z) (a b : nat) : outcome (list Z) :=
  if decide (a <= b /\ b <= length buf) then Ret (take (b - a) (drop a buf))
  else Panic.

(** [x as u8] *)
Definition as_u8 (n : nat) : Z := Z.of_nat n mod 256.

(** [core::str::from_utf8] (Rust core library): well-formed UTF-8,
    rejecting overlong forms, surrogates and code points above U+10FFFF. *)
Definition in_range (lo hi b : Z) : bool := (lo <=? b)%Z && (b <=? hi)%Z.
Definition cont (b : Z) : bool := in_range 128 191 b.

Fixpoint utf8_valid (l : list Z) : bool :=
  match l with
  | [] => true
  | b :: r =>
      if (b <? 128)%Z then (0 <=? b)%Z && utf8_valid r
      else if in_range 194 223 b then
        match r with c :: r' => cont c && utf8_valid r' | _ => false end
      else if in_range 224 239 b then
        match r with
        | c1 :: c2 :: r' =>
            (if (b =? 224)%Z then in_range 160 191 c1
             else if (b =? 237)%Z then in_range 128 159 c1
             else cont c1) && cont c2 && utf8_valid r'
        | _ => false
        end
      else if in_range 240 244 b then
        match r with
        | c1 :: c2 :: c3 :: r' =>
            (if (b =? 240)%Z then in_range 144 191 c1
             else if (b =? 244)%Z then in_range 128 143 c1
             else cont c1) && cont c2 && cont c3 && utf8_valid r'
        | _ => false
        end
      else false
  end.

(* ------------------------------------------------------------------ *)
(** ** [protocol/src/traits.rs] and [protocol/src/options.rs] *)

Module Codec.

(** The [Sendable] trait.  [serialize x buf] returns, on success, the pair
    [(written, rest)]: the caller's buffer now holds [written ++ rest] and
    [rest] is the returned remaining slice.  On [Err] every caller in the
    crate unwraps, so the partially written buffer is not observable. *)
Class Sendable (T : Type) := {
  SerError : Type;
  DeSerError : Type;
  serialize : T -> list Z -> outcome (result (list Z * list Z) SerError);
  deserialize : list Z -> outcome (result (T * list Z) DeSerError)
}.

(** A [&str] is its UTF-8 bytes. *)
Definition str := list Z.

Definition str_serialize (s : str) (buffer : list Z)
  : outcome (result (list Z * list Z) unit) :=
  if decide (length buffer < length s + 1) then Ret (Err tt)
  else Ret (Ok (as_u8 (length s) :: s, drop (1 + length s) buffer)).

Definition str_deserialize (buffer : list Z)
  : outcome (result (str * list Z) unit) :=
  let! len := idx buffer 0 in
  let n := Z.to_nat len in
  let! value := slice buffer 1 (n + 1) in
  if utf8_valid value then Ret (Ok (value, drop (1 + n) buffer)) else Panic.

Inductive Value := Switch (state : bool) | Pwm (percent : Z).

Inductive ValueDeserializeError := UnknownType (t : Z).

Definition Value_serialize (v : Value) : list Z :=
  match v with
  | Switch state => [0%Z; if state then 1%Z else 0%Z]
  | Pwm percent => [1%Z; percent]
  end.

Definition Value_deserialize (buffer : list Z)
  : outcome (result Value ValueDeserializeError) :=
  let! tag := idx buffer 0 in
  let! b1 := idx buffer 1 in
  if (tag =? 0)%Z then Ret (Ok (Switch (b1 =? 1)%Z))
  else if (tag =? 1)%Z then Ret (Ok (Pwm b1))
  else Ret (Err (UnknownType tag)).

Inductive DataPointDeserializeError :=
| ValueError (e : ValueDeserializeError)
| Other.

Record DataPoint := { dp_name : str; dp_value : Value }.

Definition DataPoint_serialize (dp : DataPoint) (buffer : list Z)
  : outcome (result (list Z * list Z) unit) :=
  let! r := str_serialize (dp_name dp) buffer in
  match r with
  | Err e => Ret (Err e)
  | Ok (pre, rest) =>
      if decide (length rest < 2) then Ret (Err tt)
      else Ret (Ok (pre ++ Value_serialize (dp_value dp), drop 2 rest))
  end.

Definition DataPoint_deserialize (buffer : list Z)
  : outcome (result (DataPoint * list Z) DataPointDeserializeError) :=
  let! r := str_deserialize buffer in
  match r with
  | Err _ => Ret (Err Other)
  | Ok (name, rest) =>
      let! two := slice rest 0 2 in
      let! v := Value_deserialize two in
      match v with
      | Err e => Ret (Err (ValueError e))
      | Ok value => Ret (Ok ({| dp_name := name; dp_value := value |}, drop 2 rest))
      end
  end.

#[global] Instance DataPoint_Sendable : Sendable DataPoint := {
  SerError := unit;
  DeSerError := DataPointDeserializeError;
  serialize := DataPoint_serialize;
  deserialize := DataPoint_deserialize
}.

Inductive ValueType := TSwitch | TPwm.

Record ConfigOption := { co_name : str; co_ty : ValueType }.

Definition ConfigOption_serialize (co : ConfigOption) (buffer : list Z)
  : outcome (result (list Z * list Z) unit) :=
  let! r := str_serialize (co_name co) buffer in
  match r with
  | Err e => Ret (Err e)
  | Ok (pre, rest) =>
      let! rest := set rest 0 (match co_ty co with TSwitch => 0%Z | TPwm => 1%Z end) in
      Ret (Ok (pre ++ take 1 rest, drop 1 rest))
  end.

Definition ConfigOption_deserialize (buffer : list Z)
  : outcome (result (ConfigOption * list Z) unit) :=
  let! r := str_deserialize buffer in
  match r with
  | Err e => Ret (Err e)
  | Ok (name, rest) =>
      let! t := idx rest 0 in
      let! ty := (if (t =? 0)%Z then Ret TSwitch
                  else if (t =? 1)%Z then Ret TPwm
                  else Panic (* todo!() *)) in
      Ret (Ok ({| co_name := name; co_ty := ty |}, drop 1 rest))
  end.

#[global] Instance ConfigOption_Sendable : Sendable ConfigOption := {
  SerError := unit;
  DeSerError := unit;
  serialize := ConfigOption_serialize;
  deserialize := ConfigOption_deserialize
}.

(** [OptionsIter<'r, T>] *)
Inductive OptionsIter (T : Type) :=
| Received (buffer : list Z) (length : nat)
| Fixed (data : list T) (index : nat).
Arguments Received {T} buffer length.
Arguments Fixed {T} data index.

Inductive OptionsIterError (E : Type) := EmptyBuffer | InnerError (e : E).
Arguments EmptyBuffer {E}.
Arguments InnerError {E} e.

Section OptionsIterCodec.
Context {T : Type} `{Sendable T}.

(** [for item in data.iter() { buffer = item.serialize(buffer)?; }] *)
Fixpoint serialize_items (data : list T) (buffer : list Z)
  : outcome (result (list Z * list Z) (OptionsIterError SerError)) :=
  match data with
  | [] => Ret (Ok ([], buffer))
  | item :: data' =>
      let! r := serialize item buffer in
      match r with
      | Err e => Ret (Err (InnerError e))
      | Ok (pre, rest) =>
          let! r' := serialize_items data' rest in
          match r' with
          | Err e => Ret (Err e)
          | Ok (pre', rest') => Ret (Ok (pre ++ pre', rest'))
          end
      end
  end.

Definition OptionsIter_serialize (it : OptionsIter T) (buffer : list Z)
  : outcome (result (list Z * list Z) (OptionsIterError SerError)) :=
  match buffer with
  | [] => Ret (Err EmptyBuffer)
  | _ :: tail =>
      match it with
      | Fixed data _ =>
          let! r := serialize_items data tail in
          match r with
          | Err e => Ret (Err e)
          | Ok (pre, rest) => Ret (Ok (as_u8 (length data) :: pre, rest))
          end
      | Received r_buf len =>
          let r_length := length r_buf in
          if decide (r_length + 1 <= length buffer)
          then Ret (Ok (as_u8 len :: r_buf, drop (r_length + 1) buffer))
          else Panic
      end
  end.

(** [for _ in 0..items { let (_, tmp) = deserialize(rest)?; length += ...; rest = tmp; }] *)
Fixpoint deserialize_items (items : nat) (rest : list Z) (len : nat)
  : outcome (result (nat * list Z) (OptionsIterError DeSerError)) :=
  match items with
  | O => Ret (Ok (len, rest))
  | S items' =>
      let! r := deserialize rest in
      match r with
      | Err e => Ret (Err (InnerError e))
      | Ok (_, tmp) => deserialize_items items' tmp (len + (length rest - length tmp))
      end
  end.

Definition OptionsIter_deserialize (buffer : list Z)
  : outcome (result (OptionsIter T * list Z) (OptionsIterError DeSerError)) :=
  match buffer with
  | [] => Ret (Err EmptyBuffer)
  | b0 :: tail =>
      let items := Z.to_nat b0 in
      let! r := deserialize_items items tail 0 in
      match r with
      | Err e => Ret (Err e)
      | Ok (len, rest) =>
          let! sub := slice buffer 1 (1 + len) in
          Ret (Ok (Received sub items, rest))
      end
  end.

(** Draining the iterator ([Iterator::next] until [None]). *)
Fixpoint received_items (len : nat) (buffer : list Z) : outcome (list T) :=
  match len with
  | O => Ret []
  | S len' =>
      let! r := deserialize buffer in
      match r with
      | Err _ => Ret []
      | Ok (value, rest) =>
          let! vs := received_items len' rest in Ret (value :: vs)
      end
  end.

Definition collect (it : OptionsIter T) : outcome (list T) :=
  match it with
  | Received buffer len => received_items len buffer
  | Fixed data index => Ret (drop index data)
  end.


(** [OptionsIter::length] *)
Definition OptionsIter_length (it : OptionsIter T) : nat :=
  match it with
  | Received _ length => length
  | Fixed data _ => length data
  end.
End OptionsIterCodec.

End Codec.

(* ------------------------------------------------------------------ *)
(** ** [protocol/src/packet.rs] *)

Module Packet.
Import Codec.

(** [const VERSION: u8 = 0] (protocol/src/lib.rs) *)
Definition VERSION : Z := 0.

Inductive ReceiverID := Controller | Everyone | ID (id : Z).

(** [impl From<u8> for ReceiverID] *)
Definition ReceiverID_of_u8 (raw : Z) : ReceiverID :=
  if (raw =? 0)%Z then Controller
  else if (raw =? 255)%Z then Everyone
  else ID raw.

(** [impl From<&ReceiverID> for u8] *)
Definition u8_of_ReceiverID (r : ReceiverID) : Z :=
  match r with
  | Controller => 0
  | Everyone => 255
  | ID id => id
  end.

Inductive PacketData :=
| InitProbe
| InitProbeResponse (status : bool) (id : option Z)
| Init (id : Z)
| Acknowledge
| Error
| Restart
| Configure (option : DataPoint)
| Metrics
| MetricsResponse (metrics : OptionsIter DataPoint)
| ConfigureOptions
| ConfigureOptionsResponse (options : OptionsIter ConfigOption).

Inductive PacketDataParseError := UnknownID (id : Z).

(** [PacketData::parse(prot_version, value: &[u8; 253])] *)
Definition parse (prot_version : Z) (value : list Z)
  : outcome (result PacketData PacketDataParseError) :=
  let! ptype_id := idx value 0 in
  match ptype_id with
  | 0%Z => Ret (Ok InitProbe)
  | 1%Z =>
      let! s := idx value 1 in
      let status := negb (s =? 0)%Z in
      let! id := (if status then let! b := idx value 2 in Ret (Some b) else Ret None) in
      Ret (Ok (InitProbeResponse status id))
  | 2%Z =>
      let! n_id := idx value 1 in
      Ret (Ok (Init n_id))
  | 3%Z => Ret (Ok Acknowledge)
  | 4%Z => Panic (* todo!("Parse Error Packet") *)
  | 5%Z => Ret (Ok Restart)
  | 6%Z =>
      let! tail := slice value 1 (length value) in
      let! r := str_deserialize tail in
      match r with
      | Err _ => Panic (* unwrap *)
      | Ok (name, rest) =>
          let! two := slice rest 0 2 in
          let! v := Value_deserialize two in
          match v with
          | Err _ => Panic (* unwrap *)
          | Ok v => Ret (Ok (Configure {| dp_name := name; dp_value := v |}))
          end
      end
  | 7%Z => Ret (Ok Metrics)
  | 8%Z =>
      let! tail := slice value 1 (length value) in
      let! r := OptionsIter_deserialize (T := DataPoint) tail in
      match r with
      | Err _ => Panic (* unwrap *)
      | Ok (metrics, _) => Ret (Ok (MetricsResponse metrics))
      end
  | 9%Z => Ret (Ok ConfigureOptions)
  | 10%Z =>
      let! tail := slice value 1 (length value) in
      let! r := OptionsIter_deserialize (T := ConfigOption) tail in
      match r with
      | Err _ => Panic (* unwrap *)
      | Ok (options, _) => Ret (Ok (ConfigureOptionsResponse options))
      end
  | id => Ret (Err (UnknownID id))
  end.

(** [PacketData::serialize(&self, data: &mut [u8; 253])]: the new content of
    [data]. *)
Definition PacketData_serialize (pd : PacketData) (data : list Z) : outcome (list Z) :=
  match pd with
  | InitProbe => set data 0 0
  | InitProbeResponse status id =>
      let! data := set data 0 1 in
      let! data := set data 1 (if status then 1 else 0) in
      set data 2 (match id with Some i => i | None => 0 end)
  | Init id =>
      let! data := set data 0 2 in
      set data 1 id
  | Acknowledge => set data 0 3
  | Error => Panic (* todo!("Serialize Error") *)
  | Restart => set data 0 5
  | Configure option =>
      let! data := set data 0 6 in
      let! r := str_serialize (dp_name option) (drop 1 data) in
      match r with
      | Err _ => Panic (* unwrap *)
      | Ok (pre, rest) =>
          if decide (length rest < 2) then Panic
          else Ret (take 1 data ++ pre ++ Value_serialize (dp_value option) ++ drop 2 rest)
      end
  | Metrics => set data 0 7
  | MetricsResponse metrics =>
      let! data := set data 0 8 in
      let! r := OptionsIter_serialize metrics (drop 1 data) in
      match r with
      | Err _ => Panic (* unwrap *)
      | Ok (pre, rest) => Ret (take 1 data ++ pre ++ rest)
      end
  | ConfigureOptions => set data 0 9
  | ConfigureOptionsResponse options =>
      let! data := set data 0 10 in
      let! r := OptionsIter_serialize options (drop 1 data) in
      match r with
      | Err _ => Panic (* unwrap *)
      | Ok (pre, rest) => Ret (take 1 data ++ pre ++ rest)
      end
  end.

Record Packet := {
  protocol_version : Z;
  receiver : ReceiverID;
  data : PacketData
}.

Inductive PacketDeserializeError :=
| Deserialize (e : PacketDataParseError)
| Checksum.

(** [Packet::deserialize(buffer: &[u8; 256])] *)
Definition deserialize (buffer : list Z)
  : outcome (result Packet PacketDeserializeError) :=
  let! protocol_version := idx buffer 0 in
  let! raw_receiver_id := idx buffer 1 in
  let! raw_data := slice buffer 2 255 in
  let! _crc := idx buffer 255 in
  let receiver_id := ReceiverID_of_u8 raw_receiver_id in
  let! pd := parse protocol_version raw_data in
  match pd with
  | Err e => Ret (Err (Deserialize e))
  | Ok packet_data =>
      Ret (Ok {| protocol_version := protocol_version;
                 receiver := receiver_id;
                 data := packet_data |})
  end.

(** [Packet::serialize(&self) -> [u8; 256]] *)
Definition serialize (p : Packet) : outcome (list Z) :=
  let buffer := replicate 256 0%Z in
  let! buffer := set buffer 0 VERSION in
  let! buffer := set buffer 1 (u8_of_ReceiverID (receiver p)) in
  let! payload := PacketData_serialize (data p) (take 253 (drop 2 buffer)) in
  let buffer := take 2 buffer ++ payload ++ drop 255 buffer in
  let crc := 0%Z in
  set buffer 255 crc.

(** [Packet::init_probe()] and [Packet::ack(recv)] *)
Definition init_probe : Packet :=
  {| protocol_version := VERSION; receiver := Everyone; data := InitProbe |}.
Definition ack (recv : ReceiverID) : Packet :=
  {| protocol_version := VERSION; receiver := recv; data := Acknowledge |}.


(** [Packet::read_blocking] on a port seen through
    [embedded_hal::serial::nb::Read]: the answer to the [k]-th [read]
    call. *)
Inductive ReadResult := RByte (b : Z) | RWouldBlock | ROther.

Inductive PacketReadError :=
| SerialRead
| PacketDeserialize (e : PacketDeserializeError).

(** One [loop] filling [buffer_entry], with at most [fuel] [read] calls:
    the byte and the next call number, a [return Err(SerialRead)], or still
    looping on [WouldBlock]. *)
Inductive ReadStep := Got (b : Z) (k : nat) | Failed (k : nat) | Blocked (k : nat).

Fixpoint read_entry (fuel : nat) (dev : nat -> ReadResult) (k : nat) : ReadStep :=
  match fuel with
  | O => Blocked k
  | S fuel' =>
      match dev k with
      | RByte d => Got d (S k)
      | RWouldBlock => read_entry fuel' dev (S k)
      | ROther => Failed (S k)
      end
  end.

Inductive FillStep := Filled (buf : list Z) (k : nat) | FillFailed (k : nat) | FillBlocked (k : nat).

(** [for buffer_entry in buffer.iter_mut() { loop { .. } }] over [n] entries. *)
Fixpoint read_entries (n fuel : nat) (dev : nat -> ReadResult) (k : nat) : FillStep :=
  match n with
  | O => Filled [] k
  | S n' =>
      match read_entry fuel dev k with
      | Got b k' =>
          match read_entries n' fuel dev k' with
          | Filled bs k'' => Filled (b :: bs) k''
          | st => st
          end
      | Failed k' => FillFailed k'
      | Blocked k' => FillBlocked k'
      end
  end.

Inductive ReadOutcome :=
| ReadReturned (r : result Packet PacketReadError) (k : nat)
| ReadBlocked (k : nat).

Definition read_blocking (fuel : nat) (dev : nat -> ReadResult) (k : nat) : outcome ReadOutcome :=
  match read_entries 256 fuel dev k with
  | Filled buffer k' =>
      let! r := deserialize buffer in
      Ret (ReadReturned (match r with
                         | Ok p => Ok p
                         | Err e => Err (PacketDeserialize e)
                         end) k')
  | FillFailed k' => Ret (ReadReturned (Err SerialRead) k')
  | FillBlocked k' => Ret (ReadBlocked k')
  end.

(** A port that delivers the bytes of [frame], byte [i] after [waits !! i]
    [WouldBlock] answers, and fails once they are all delivered. *)
Fixpoint answers (waits : list nat) (frame : list Z) : list ReadResult :=
  match waits, frame with
  | w :: ws, b :: bs => replicate w RWouldBlock ++ RByte b :: answers ws bs
  | _, _ => []
  end.

Definition port (l : list ReadResult) (k : nat) : ReadResult := default ROther (l !! k).

(** [dev] answers, from call [k] on, the answers listed in [l]. *)
Definition agrees (dev : nat -> ReadResult) (k : nat) (l : list ReadResult) : Prop :=
  forall j a, l !! j = Some a -> dev (k + j) = a.
End Packet.

(* ------------------------------------------------------------------ *)
(** ** Wire encodings and well-formedness of in-domain values *)

Module Wire.
Import Codec Packet.

(** A Rust [&str] of at most 255 bytes: valid UTF-8 by its type. *)
Definition str_ok (s : str) : Prop := utf8_valid s = true /\ length s <= 255.

Definition enc_str (s : str) : list Z := Z.of_nat (length s) :: s.

Definition enc_dp (dp : DataPoint) : list Z :=
  enc_str (dp_name dp) ++ Value_serialize (dp_value dp).

Definition ty_byte (t : ValueType) : Z := match t with TSwitch => 0 | TPwm => 1 end.

Definition enc_co (co : ConfigOption) : list Z := enc_str (co_name co) ++ [ty_byte (co_ty co)].

Definition dp_ok (dp : DataPoint) : Prop := str_ok (dp_name dp).
Definition co_ok (co : ConfigOption) : Prop := str_ok (co_name co).

Section ListWire.
Context {T : Type} `{Sendable T} (enc : T -> list Z) (wf : T -> Prop).

(** The bytes of a list on the wire: count byte, then the items. *)
Definition enc_list (it : OptionsIter T) : list Z :=
  match it with
  | Fixed data _ => as_u8 (length data) :: concat (map enc data)
  | Received buffer len => as_u8 len :: buffer
  end.

(** A list the sender can put in a frame: at most 255 well-formed items, or
    a received buffer holding exactly [len] encoded items. *)
Definition list_ok (it : OptionsIter T) : Prop :=
  match it with
  | Fixed data _ => Forall wf data /\ length data <= 255
  | Received buffer len =>
      len <= 255 /\ deserialize_items len buffer 0 = Ret (Ok (length buffer, []))
  end.

(** How a list comes back from the wire: always as a [Received] list. *)
Definition wire_iter (it : OptionsIter T) : OptionsIter T :=
  match it with
  | Fixed data _ => Received (concat (map enc data)) (length data)
  | Received buffer len => Received buffer len
  end.

End ListWire.

Definition payload_bytes (pd : PacketData) : list Z :=
  match pd with
  | InitProbe => [0]
  | InitProbeResponse status id =>
      [1; if status then 1 else 0; match id with Some i => i | None => 0 end]
  | Init id => [2; id]
  | Acknowledge => [3]
  | Error => []
  | Restart => [5]
  | Configure dp => 6 :: enc_dp dp
  | Metrics => [7]
  | MetricsResponse it => 8 :: enc_list enc_dp it
  | ConfigureOptions => [9]
  | ConfigureOptionsResponse it => 10 :: enc_list enc_co it
  end%Z.

(** The in-domain payloads of the round trip. *)
Definition payload_ok (pd : PacketData) : Prop :=
  match pd with
  | InitProbeResponse status id => status = true <-> id <> None
  | Error => False
  | Configure dp => dp_ok dp
  | MetricsResponse it => list_ok dp_ok it
  | ConfigureOptionsResponse it => list_ok co_ok it
  | _ => True
  end /\ length (payload_bytes pd) <= 253.

Definition receiver_ok (r : ReceiverID) : Prop :=
  match r with
  | ID n => (1 <= n <= 254)%Z
  | _ => True
  end.

Definition packet_ok (p : Packet) : Prop :=
  protocol_version p = 0%Z /\ receiver_ok (receiver p) /\ payload_ok (data p).

Definition wire_data (pd : PacketData) : PacketData :=
  match pd with
  | MetricsResponse it => MetricsResponse (wire_iter enc_dp it)
  | ConfigureOptionsResponse it => ConfigureOptionsResponse (wire_iter enc_co it)
  | _ => pd
  end.

Definition wire_form (p : Packet) : Packet :=
  {| protocol_version := protocol_version p; receiver := receiver p;
     data := wire_data (data p) |}.

(** The items a list carries: the whole slice of a [Fixed] list, the
    decoded items of a [Received] one. *)
Definition carried {T} `{Sendable T} (it : OptionsIter T) : outcome (list T) :=
  match it with
  | Fixed data _ => Ret data
  | Received buffer len => received_items len buffer
  end.


End Wire.

(* ------------------------------------------------------------------ *)
(** ** Protocol roles: [Extension::init], [Extension::run], [Controller::init] *)

Module Roles.
Import Codec Packet.

(** A blocking serial port seen through [embedded_hal::serial::nb::Write]:
    the answer to the [k]-th [write] call, and the bytes that left the
    port so far (a byte leaves exactly when its [write] returns [Ok]). *)
Inductive WriteResult := WOk | WouldBlock | WOther.

Record SerialOut := { calls : nat; sent : list Z }.

Definition write_call (dev : nat -> WriteResult) (s : SerialOut) (byte : Z)
  : WriteResult * SerialOut :=
  let r := dev (calls s) in
  (r, {| calls := S (calls s);
         sent := match r with WOk => sent s ++ [byte] | _ => sent s end |}).

(** The state of a loop run for a bounded number of [write] calls:
    still running when the bound is reached, left normally, or left by a
    [return Err(..)]. *)
Inductive run_state := Running (s : SerialOut) | Finished (s : SerialOut) | Returned (s : SerialOut).

(** [loop { if let Err(e) = serial.write(byte) { match e {
      nb::Error::WouldBlock => continue, _ => return Err(..) } } }]:
    nothing leaves the loop but the [return]. *)
Fixpoint write_byte_loop (fuel : nat) (dev : nat -> WriteResult) (byte : Z) (s : SerialOut)
  : run_state :=
  match fuel with
  | O => Running s
  | S fuel' =>
      let (r, s') := write_call dev s byte in
      match r with
      | WOk => write_byte_loop fuel' dev byte s'
      | WouldBlock => write_byte_loop fuel' dev byte s'
      | WOther => Returned s'
      end
  end.

(** [for byte in bytes { loop { .. } }] *)
Fixpoint write_bytes_looping (fuel : nat) (dev : nat -> WriteResult) (bytes : list Z)
  (s : SerialOut) : run_state :=
  match bytes with
  | [] => Finished s
  | b :: bs =>
      match write_byte_loop fuel dev b s with
      | Finished s' => write_bytes_looping fuel dev bs s'
      | st => st
      end
  end.

(** [for byte in bytes { serial.write(byte).map_err(..)?; }] (the [Init]
    branch of [Extension::init]): one call per byte, any error returns. *)
Fixpoint write_bytes_once (dev : nat -> WriteResult) (bytes : list Z) (s : SerialOut)
  : run_state :=
  match bytes with
  | [] => Finished s
  | b :: bs =>
      let (r, s') := write_call dev s b in
      match r with
      | WOk => write_bytes_once dev bs s'
      | _ => Returned s'
      end
  end.

Definition receiver_eqb (a b : ReceiverID) : bool :=
  match a, b with
  | Controller, Controller => true
  | Everyone, Everyone => true
  | ID x, ID y => (x =? y)%Z
  | _, _ => false
  end.

(** One pass of the [loop] of [Extension::init], for the packet
    [read_blocking] returned and the level of the selection line. *)
Inductive InitStep :=
| IContinue (s : SerialOut)           (* [continue] *)
| IBreak (id : Z) (s : SerialOut)     (* [break *id] *)
| IWriteError (s : SerialOut)         (* [return Err(WritingSerial)] *)
| IRunning (s : SerialOut).           (* still inside a write loop *)

Definition init_iteration (fuel : nat) (dev : nat -> WriteResult) (selected : bool)
  (packet : Packet) (s : SerialOut) : outcome InitStep :=
  if negb selected || negb (receiver_eqb (receiver packet) Everyone)
  then Ret (IContinue s)
  else
    match data packet with
    | InitProbe =>
        let response := {| protocol_version := VERSION; receiver := Controller;
                           data := InitProbeResponse false None |} in
        let! response_data := serialize response in
        match write_bytes_looping fuel dev response_data s with
        | Finished s' => Ret (IContinue s')   (* serial.flush(); continue *)
        | Running s' => Ret (IRunning s')
        | Returned s' => Ret (IWriteError s')
        end
    | Init id =>
        let! bytes := serialize (ack Controller) in
        match write_bytes_once dev bytes s with
        | Finished s' => Ret (IBreak id s')
        | Running s' => Ret (IRunning s')
        | Returned s' => Ret (IWriteError s')
        end
    | _ => Panic (* panic!("") *)
    end.

(** [CtrlExtension] *)
Record CtrlExtension := { ce_id : Z; initialized : bool }.

Inductive SlotStep :=
| SEntry (e : CtrlExtension) (s : SerialOut)
| SRunning (s : SerialOut).

(** The closure of [array::from_fn] in [Controller::init] for slot [idx].
    [response] is the outcome of [serial.flush().unwrap()] followed by
    [read_blocking(..).expect("")]. *)
Definition controller_slot (fuel : nat) (dev : nat -> WriteResult) (ready : bool)
  (idx : nat) (response : outcome Packet) (s : SerialOut) : outcome SlotStep :=
  if negb ready then Ret (SEntry {| ce_id := as_u8 idx; initialized := false |} s)
  else
    (* select.select(idx) *)
    let! bytes := serialize init_probe in
    match write_bytes_looping fuel dev bytes s with
    | Running s' => Ret (SRunning s')
    | Returned _ => Panic (* panic!("") *)
    | Finished s' =>
        let! response := response in
        match data response with
        | InitProbeResponse status id =>
            match id with
            | Some id => Ret (SEntry {| ce_id := id; initialized := status |} s')
            | None => Ret (SEntry {| ce_id := as_u8 idx; initialized := false |} s')
            end
        | _ => Panic (* panic!("") *)
        end
    end.

(** One pass of the [loop] of [Extension::run] on the 256 bytes
    [async_serial.read()] returned.  [metrics] is what the [metrics]
    closure returns, [config_options] the static option table. *)
Inductive RunStep :=
| RContinue                                  (* [continue] *)
| RReturn                                    (* [Restart]: [return] *)
| RWrite (frame : list Z)                    (* [async_serial.write(frame)] *)
| RConfigure (option : DataPoint) (frame : list Z). (* [configure(option)], then write *)

Definition run_iteration (self_id : Z) (selected : bool) (metrics : list DataPoint)
  (config_options : list ConfigOption) (buffer : list Z) : outcome RunStep :=
  let! r := deserialize buffer in
  match r with
  | Err _ => Panic (* unwrap *)
  | Ok recv_packet =>
      let accepted :=
        match receiver recv_packet with
        | Everyone => selected
        | ID id => (id =? self_id)%Z
        | Controller => false
        end in
      if negb accepted then Ret RContinue
      else
        match data recv_packet with
        | Init _ | InitProbeResponse _ _ | Acknowledge | Error
        | MetricsResponse _ | ConfigureOptionsResponse _ =>
            Panic (* todo!("Send Error Response") *)
        | InitProbe =>
            let! buf := serialize {| protocol_version := VERSION; receiver := Controller;
                                     data := InitProbeResponse true (Some self_id) |} in
            Ret (RWrite buf)
        | Restart => Ret RReturn
        | Configure option =>
            let! buf := serialize (ack Controller) in
            Ret (RConfigure option buf)
        | Metrics =>
            let! buf := serialize {| protocol_version := VERSION; receiver := Controller;
                                     data := MetricsResponse (Fixed metrics 0) |} in
            Ret (RWrite buf)
        | ConfigureOptions =>
            let! buf := serialize {| protocol_version := VERSION; receiver := Controller;
                                     data := ConfigureOptionsResponse (Fixed config_options 0) |} in
            Ret (RWrite buf)
        end
  end.

End Roles.

(* ------------------------------------------------------------------ *)
(** ** The level-one timer wheel ([utils/src/timer.rs], [fixed_size]) *)

Module Timer.

(** Outcome of sequential code that can panic ([Crash]) or loop forever
    ([Spin]). *)
Inductive exec (A : Type) : Type :=
| Done (a : A)
| Crash
| Spin.
Arguments Done {A} a.
Arguments Crash {A}.
Arguments Spin {A}.

Definition ebind {A B} (m : exec A) (k : A -> exec B) : exec B :=
  match m with
  | Done a => k a
  | Crash => Crash
  | Spin => Spin
  end.

Notation "'let?' x := m 'in' k" := (ebind m (fun x => k))
  (at level 200, x pattern, m at level 100, k at level 200).

(** [usize] arithmetic wraps at [2^64]; 32 divides [2^64]. *)
Definition usize_wrap (x : Z) : Z := x mod 2 ^ 64.

(** A [Waker] is known by its identity; [wake()] appends it to the log. *)
Definition Waker := nat.

(** [Slot { state, waker, fired }] *)
Record Slot := { state : Z; waker : option Waker; fired : bool }.

(** [SlotStorage<32> { wakers, used_slots }] *)
Record SlotStorage := { wakers : list Slot; used_slots : Z }.

(** [LevelOneWheel { current, slots: [AtomicIsize; 32] }] *)
Record LevelOneWheel := { current : Z; slots : list Z }.

(** [TimerWheel<LevelOneWheel, SCALE> { wheel, waker }], with the log of
    [wake()] calls made so far. *)
Record World := { wheel : LevelOneWheel; storage : SlotStorage; woken : list Waker }.

Inductive TimerHandle := Registered (slot : nat) | Fired.

Inductive WheelAddError := OutOfRange | Full.

(** [ScaleGeneral<N>::scale_ms] *)
Definition scale_ms (N time : nat) : nat :=
  if decide (time mod N = 0) then time / N else time / N + 1.

(** The first index of a slot whose [state] is 0. *)
Fixpoint find_free (ws : list Slot) (i : nat) : option nat :=
  match ws with
  | [] => None
  | s :: ws' => if (state s =? 0)%Z then Some i else find_free ws' (S i)
  end.

(** [SlotStorage::add_waker] (run alone, so every [compare_exchange]
    succeeds).  When no slot has state 0 the outer [loop] spins. *)
Definition add_waker (st : SlotStorage) (w : Waker)
  : exec (result nat unit * SlotStorage) :=
  let usage := used_slots st in
  if (32 <=? usage)%Z then
    (* fetch_add then fetch_sub *)
    Done (Err tt, {| wakers := wakers st; used_slots := usage |})
  else
    match find_free (wakers st) 0 with
    | Some index =>
        Done (Ok index,
              {| wakers := <[index := {| state := 2; waker := Some w; fired := false |}]> (wakers st);
                 used_slots := usage + 1 |})
    | None => Spin
    end.

(** [SlotStorage::take_slot]: the waker, and the storage after the
    [compare_exchange(2, 1)] and [take()]. *)
Definition take_slot (st : SlotStorage) (index : nat) : option Waker * SlotStorage :=
  match wakers st !! index with
  | None => (None, st)
  | Some slot =>
      if negb (state slot =? 2)%Z then (None, st)
      else
        let st' := {| wakers := <[index := {| state := 1; waker := None; fired := fired slot |}]> (wakers st);
                      used_slots := used_slots st |} in
        (waker slot, st')
  end.

(** [self.slots[slot_index]] for [slot_index = (current + time + i) % 32]. *)
Definition bucket (cur : Z) (time i : nat) : nat :=
  Z.to_nat ((cur + Z.of_nat time + Z.of_nat i) mod 32).

(** [for i in 0..31 { .. compare_exchange(-1, waker_index) .. }] from
    iteration [i] on: the new buckets if one was free. *)
Fixpoint probe (fuel i : nat) (cur : Z) (time widx : nat) (sl : list Z)
  : exec (option (list Z)) :=
  match fuel with
  | O => Done None
  | S fuel' =>
      let slot_index := bucket cur time i in
      match sl !! slot_index with
      | None => Crash (* index out of bounds *)
      | Some v =>
          if (v =? -1)%Z then Done (Some (<[slot_index := Z.of_nat widx]> sl))
          else probe fuel' (S i) cur time widx sl
      end
  end.

(** [LevelOneWheel::add_step] *)
Definition add_step (time : nat) (w : Waker) (wd : World)
  : exec (result TimerHandle WheelAddError * World) :=
  if decide (32 <= time) then Done (Err OutOfRange, wd)
  else
    let? (r, st) := add_waker (storage wd) w in
    let wd := {| wheel := wheel wd; storage := st; woken := woken wd |} in
    match r with
    | Err _ => Done (Err Full, wd)
    | Ok waker_index =>
        let? found := probe 31 0 (current (wheel wd)) time waker_index (slots (wheel wd)) in
        match found with
        | Some sl =>
            Done (Ok (Registered waker_index),
                  {| wheel := {| current := current (wheel wd); slots := sl |};
                     storage := st; woken := woken wd |})
        | None => Done (Err Full, wd)
        end
    end.

(** [LevelOneWheel::tick] *)
Definition tick (wd : World) : exec World :=
  let c := current (wheel wd) in
  let index := Z.to_nat ((c + 1) mod 32) in
  let wh := {| current := usize_wrap (c + 1); slots := slots (wheel wd) |} in
  let wd := {| wheel := wh; storage := storage wd; woken := woken wd |} in
  match slots wh !! index with
  | None => Crash (* index out of bounds *)
  | Some id =>
      if (id <? 0)%Z then Done wd
      else
        let wh := {| current := current wh; slots := <[index := (-1)%Z]> (slots wh) |} in
        let waker_index := Z.to_nat id in
        match take_slot (storage wd) waker_index with
        | (None, _) => Crash (* unwrap *)
        | (Some w, st) =>
            let st := {| wakers := match wakers st !! waker_index with
                                   | Some s => <[waker_index := {| state := state s; waker := waker s;
                                                                   fired := true |}]> (wakers st)
                                   | None => wakers st
                                   end;
                         used_slots := used_slots st |} in
            Done {| wheel := wh; storage := st; woken := woken wd ++ [w] |}
        end
  end.

(** [TimerWheel::add_ms] *)
Definition add_ms (time : nat) (w : Waker) (wd : World)
  : exec (result TimerHandle WheelAddError * World) :=
  match time with
  | O => Done (Ok Fired, {| wheel := wheel wd; storage := storage wd; woken := woken wd ++ [w] |})
  | _ => add_step time w wd
  end.

(** [SleepMs { handle, time }] and its [Future::poll]. *)
Record SleepMs := { handle : option TimerHandle; time : nat }.

Inductive Poll := Pending | Ready (r : result unit unit).

(** [TimerWheel::sleep_ms] on a [ScaleGeneral<N>] wheel. *)
Definition sleep_ms (N time : nat) : SleepMs := {| handle := None; time := scale_ms N time |}.

Definition poll (fut : SleepMs) (cx : Waker) (wd : World) : exec (Poll * SleepMs * World) :=
  match handle fut with
  | Some Fired => Done (Ready (Ok tt), fut, wd)
  | Some (Registered slot) =>
      match wakers (storage wd) !! slot with
      | Some s => if fired s then Done (Ready (Ok tt), fut, wd) else Done (Pending, fut, wd)
      | None => Crash
      end
  | None =>
      let? (r, wd) := add_ms (time fut) cx wd in
      match r with
      | Ok h => Done (Pending, {| handle := Some h; time := time fut |}, wd)
      | Err _ => Done (Ready (Err tt), fut, wd)
      end
  end.

(** [n] calls of [TimerWheel::tick]. *)
Fixpoint ticks (n : nat) (wd : World) : exec World :=
  match n with
  | O => Done wd
  | S n' => let? wd := tick wd in ticks n' wd
  end.

(** [TimerWheel::new()], with the wheel position at [c]. *)
Definition empty_slot : Slot := {| state := 0; waker := None; fired := false |}.

Definition fresh (c : Z) : World :=
  {| wheel := {| current := c; slots := replicate 32 (-1)%Z |};
     storage := {| wakers := replicate 32 empty_slot; used_slots := 0 |};
     woken := [] |}.


(** [impl Drop for TimerHandle]: the slot's [state] and [fired] are reset
    and [used_slots] is decremented; the waker cell and the wheel buckets
    are left as they are.  Dropping a [SleepMs] drops its [handle]. *)
Definition drop_handle (h : option TimerHandle) (wd : World) : World :=
  match h with
  | Some (Registered slot) =>
      {| wheel := wheel wd;
         storage := {| wakers := match wakers (storage wd) !! slot with
                                 | Some s => <[slot := {| state := 0; waker := waker s;
                                                          fired := false |}]> (wakers (storage wd))
                                 | None => wakers (storage wd)
                                 end;
                       used_slots := usize_wrap (used_slots (storage wd) - 1) |};
         woken := woken wd |}
  | _ => wd
  end.
End Timer.

(* ------------------------------------------------------------------ *)
(** ** The executor ([executor/src/lib.rs], [waking.rs]) *)

Module Executor.

Inductive TaskPoll := TPending | TReady.

(** [TaskMetadata { done, id }] *)
Record TaskMetadata := { done : bool; id : nat }.

Section Runtime.
Context {Fut : Type}.

(** Polling the future of task [id] in state [f]: its result, its next
    state, and the internal wakers woken while it runs ([wake] and
    [wake_by_ref] set [ready] of the [InternalWaker] they point to). *)
Variable poll_fut : nat -> Fut -> TaskPoll * Fut * list nat.

(** Wakes made by interrupt handlers just before pass [p] looks at slot
    [id]. *)
Variable irq : nat -> nat -> list nat.

(** [Runtime { metadata, wakers, tasks }]; an [InternalWaker] is its
    [ready] flag. *)
Record Runtime := { metadata : list TaskMetadata; wakers : list bool; tasks : list Fut }.

(** [Runtime::new]: [InternalWaker::new()] is ready. *)
Definition new (futs : list Fut) : Runtime :=
  {| metadata := imap (fun idx _ => {| done := false; id := idx |}) futs;
     wakers := replicate (length futs) true;
     tasks := futs |}.

Definition wake_all (ws : list nat) (ready : list bool) : list bool :=
  foldl (fun acc i => <[i := true]> acc) ready ws.

(** A poll of task [id]: the runtime as the loop found it, the runtime as
    the future was polled, and the result. *)
Inductive Event := Polled (task : nat) (before at_poll : Runtime) (res : TaskPoll).

(** One iteration of the [for] loop of [Runtime::run], slot [id] of pass
    [p]. *)
Definition visit (p : nat) (rt : Runtime) (log : list Event) (slot : nat)
  : outcome (Runtime * list Event) :=
  let rt := {| metadata := metadata rt; wakers := wake_all (irq p slot) (wakers rt);
               tasks := tasks rt |} in
  match metadata rt !! slot, wakers rt !! slot with
  | Some entry, Some ready =>
      if negb ready || done entry then Ret (rt, log)  (* continue *)
      else
        let rt1 := {| metadata := metadata rt; wakers := <[slot := false]> (wakers rt);
                      tasks := tasks rt |} in
        match tasks rt1 !! slot with
        | None => Panic (* get_mut(id).unwrap() *)
        | Some fut =>
            let '(res, fut', woken) := poll_fut slot fut in
            let metadata' :=
              match res with
              | TPending => metadata rt1
              | TReady => <[slot := {| done := true; id := id entry |}]> (metadata rt1)
              end in
            Ret ({| metadata := metadata'; wakers := wake_all woken (wakers rt1);
                    tasks := <[slot := fut']> (tasks rt1) |},
                 log ++ [Polled slot rt rt1 res])
        end
  | _, _ => Ret (rt, log)
  end.

Fixpoint visit_all (p : nat) (slots : list nat) (rt : Runtime) (log : list Event)
  : outcome (Runtime * list Event) :=
  match slots with
  | [] => Ret (rt, log)
  | s :: slots' =>
      let! r := visit p rt log s in
      visit_all p slots' (fst r) (snd r)
  end.

(** One pass of [loop] in [Runtime::run]: the [for] over
    [metadata.iter_mut().zip(wakers.iter()).enumerate()], then the
    [assert!] that some task is not done. *)
Definition pass (p : nat) (rt : Runtime) (log : list Event) : outcome (Runtime * list Event) :=
  let! r := visit_all p (seq 0 (Nat.min (length (metadata rt)) (length (wakers rt)))) rt log in
  if forallb done (metadata (fst r)) then Panic (* "Should run forever" *)
  else Ret r.

(** The first [n] passes. *)
Fixpoint run_passes (n : nat) (rt : Runtime) (log : list Event) : outcome (Runtime * list Event) :=
  match n with
  | O => Ret (rt, log)
  | S n' =>
      let! r := run_passes n' rt log in
      pass n' (fst r) (snd r)
  end.

(** The three arrays of the runtime hold [n] entries each. *)
Definition sized (n : nat) (rt : Runtime) : Prop :=
  length (metadata rt) = n /\ length (wakers rt) = n /\ length (tasks rt) = n.

(** Every poll of the future of task [i] returns [Pending]. *)
Definition never_ready (i : nat) : Prop := forall f, fst (fst (poll_fut i f)) = TPending.

End Runtime.

End Executor.

(* ------------------------------------------------------------------ *)
(** ** The static task list ([executor/src/tasklist.rs], [staticlist.rs]) *)

Module TaskList.
Section TaskList.
Context {C : Type}.

(** [Task<'f, N, L> { fut, next }], with its const parameter [L]. *)
#[warnings="-register-all"]
Inductive Task := mkTask { fut : C; next : option Task; L : nat }.

(** [Task::new] *)
Definition new (f : C) : Task := mkTask f None 1.

(** [Task::append]: [append]'s future becomes the new first node. *)
Definition append (self append : Task) : Task := mkTask (fut append) (Some self) (L self + 1).

(** [StaticList::length] *)
Definition length (t : Task) : nat := L t.

(** [StaticList::get] and [StaticList::get_mut] *)
Fixpoint get (t : Task) (index : nat) : option Task :=
  match index with
  | O => Some t
  | S index' =>
      match next t with
      | Some n => get n index'
      | None => None
      end
  end.

(** [StaticList::content] *)
Definition content (t : Task) : option C := Some (fut t).

(** [tasks!(list, (f, _), (f1, _), ..)] *)
Definition tasks (f : C) (fs : list C) : Task :=
  fold_left (fun l g => append l (new g)) fs (new f).

(** [t] holds the futures [xs], [xs !! i] at index [i]. *)
Definition lays_out (t : Task) (xs : list C) : Prop :=
  TaskList.length t = List.length xs /\ forall i, (get t i ≫= content) = xs !! i.

End TaskList.
End TaskList.

(* ------------------------------------------------------------------ *)
(** ** The unbounded mpsc queue ([utils/src/queue.rs]) *)

(** The producer and the consumer run one operation at a time: each
    [try_enqueue] and each [try_dequeue] is executed as a whole, between
    the other side's calls.  Panics and dangling pointers are [Crash];
    running out of loop fuel is [Spin]. *)
Module Queue.
Import Timer(exec, Done, Crash, Spin, ebind).

Local Notation "'let?' x := m 'in' k" := (ebind m (fun x => k))
  (at level 200, x pattern, m at level 100, k at level 200).

(** [Buffer<T, 4>]: the [N] of the queue. *)
Definition N : nat := 4.

Section Queue.
Context {T : Type}.

(** [Entry { data, state }] *)
Record Entry := { data : option T; state : Z }.

(** [Buffer { entries, pos, ref_count, next }]; pointers are addresses in
    the heap. *)
Record Buffer := { entries : list Entry; pos : nat; ref_count : Z; next : option nat }.

(** The heap of buffers, the [tail] of the [Tx], the [head] and [pos] of
    the [Rx]. *)
Record World := { heap : gmap nat Buffer; tail : nat; head : nat; rx_pos : nat }.

(** The allocator hands out an address not in use. *)
Variable alloc_addr : gmap nat Buffer -> nat.

Definition entry_default : Entry := {| data := None; state := 0 |}.

(** [Buffer::allocate] *)
Definition allocate (h : gmap nat Buffer) : gmap nat Buffer * nat :=
  let p := alloc_addr h in
  (<[p := {| entries := replicate N entry_default; pos := 0; ref_count := 0;
             next := None |}]> h, p).

Definition with_heap (w : World) (h : gmap nat Buffer) : World :=
  {| heap := h; tail := tail w; head := head w; rx_pos := rx_pos w |}.

Definition set_entries (b : Buffer) (es : list Entry) : Buffer :=
  {| entries := es; pos := pos b; ref_count := ref_count b; next := next b |}.

Definition set_next (b : Buffer) (n : option nat) : Buffer :=
  {| entries := entries b; pos := pos b; ref_count := ref_count b; next := n |}.

Definition add_ref (b : Buffer) (d : Z) : Buffer :=
  {| entries := entries b; pos := pos b; ref_count := ref_count b + d; next := next b |}.

(** [queue(allocator)] *)
Definition queue (h : gmap nat Buffer) : World :=
  let '(h, p) := allocate h in
  let h := match h !! p with Some b => <[p := add_ref b 1]> h | None => h end in
  {| heap := h; tail := p; head := p; rx_pos := 0 |}.

(** [Buffer::try_enqueue]: the stores of state 1, of the data and of
    state 2 to [entries[insert_pos]]. *)
Definition buffer_try_enqueue (b : Buffer) (x : T) : Buffer * result unit T :=
  let insert_pos := pos b in
  let b := {| entries := entries b; pos := S (pos b); ref_count := ref_count b;
              next := next b |} in
  if N <=? insert_pos then (b, Err x)
  else
    let es := <[insert_pos := {| data := data (default entry_default (entries b !! insert_pos));
                                 state := 1 |}]> (entries b) in
    let es := <[insert_pos := {| data := Some x; state := 1 |}]> es in
    let es := <[insert_pos := {| data := Some x; state := 2 |}]> es in
    (set_entries b es, Ok tt).

(** [Tx::try_enqueue]: one round of its [loop] per unit of fuel. *)
Fixpoint tx_try_enqueue (fuel : nat) (w : World) (x : T) : exec World :=
  match fuel with
  | O => Spin
  | S fuel' =>
      let tail_ptr := tail w in
      match heap w !! tail_ptr with
      | None => Crash
      | Some buffer =>
          let '(buffer, r) := buffer_try_enqueue buffer x in
          let w := with_heap w (<[tail_ptr := buffer]> (heap w)) in
          match r with
          | Ok _ => Done w
          | Err x =>
              let? (w, current_next) :=
                match next buffer with
                | None =>
                    let '(h, new_buffer) := allocate (heap w) in
                    (* buffer.next.compare_exchange(null, new_buffer) *)
                    match h !! tail_ptr with
                    | None => Crash
                    | Some b =>
                        match next b with
                        | None => Done (with_heap w (<[tail_ptr := set_next b (Some new_buffer)]> h),
                                        new_buffer)
                        | Some cur => Done (with_heap w h, cur)
                        end
                    end
                | Some ptr => Done (w, ptr)
                end in
              match heap w !! current_next with
              | None => Crash
              | Some nxt =>
                  let w := with_heap w (<[current_next := add_ref nxt 1]> (heap w)) in
                  (* self.tail.compare_exchange(tail_ptr, current_next) *)
                  let? w :=
                    if Nat.eqb (tail w) tail_ptr then
                      Done {| heap := heap w; tail := current_next; head := head w;
                              rx_pos := rx_pos w |}
                    else
                      match heap w !! current_next with
                      | None => Crash
                      | Some nxt => Done (with_heap w (<[current_next := add_ref nxt (-1)]> (heap w)))
                      end in
                  match heap w !! tail_ptr with
                  | None => Crash
                  | Some b =>
                      tx_try_enqueue fuel' (with_heap w (<[tail_ptr := add_ref b (-1)]> (heap w))) x
                  end
              end
          end
      end
  end.

Inductive DequeueError := Empty.

(** [possible_entries.iter().enumerate().filter(|(_, e)| state == 2).next()] *)
Fixpoint first_set (i : nat) (es : list Entry) : option (nat * Entry) :=
  match es with
  | [] => None
  | e :: es' => if Z.eqb (state e) 2 then Some (i, e) else first_set (S i) es'
  end.

(** The [loop] of [Rx::try_dequeue] looking at buffer [buf_ptr], whose
    [possible_entries] start at [offset]. *)
Fixpoint rx_loop (fuel : nat) (w : World) (buf_ptr offset : nat) (initial : bool)
  : exec (World * result T DequeueError) :=
  match fuel with
  | O => Spin
  | S fuel' =>
      match heap w !! buf_ptr with
      | None => Crash
      | Some buffer =>
          if length (entries buffer) <? offset then Crash
          else
          match first_set 0 (drop offset (entries buffer)) with
          | Some (index, entry) =>
              match data entry with
              | None => Crash (* unwrap *)
              | Some d =>
                  let es := <[offset + index := {| data := None; state := 3 |}]> (entries buffer) in
                  let h := <[buf_ptr := set_entries buffer es]> (heap w) in
                  let p := if initial && Nat.eqb (rx_pos w) index then S (rx_pos w) else rx_pos w in
                  Done ({| heap := h; tail := tail w; head := head w; rx_pos := p |}, Ok d)
              end
          | None =>
              match next buffer with
              | None => Done (w, Err Empty)
              | Some ptr =>
                  let? w :=
                    if forallb (fun e => Z.eqb (state e) 3) (entries buffer) then
                      if Z.eqb (ref_count buffer) 0 then
                        if Nat.eqb (head w) buf_ptr && initial then
                          Done {| heap := delete buf_ptr (heap w); tail := tail w; head := ptr;
                                  rx_pos := 0 |}
                        else Done w
                      else Crash (* todo!("Cant Free") *)
                    else Done w in
                  rx_loop fuel' w ptr 0 false
              end
          end
      end
  end.

(** [Rx::try_dequeue] *)
Definition rx_try_dequeue (fuel : nat) (w : World) : exec (World * result T DequeueError) :=
  rx_loop fuel w (head w) (rx_pos w) true.

Inductive Op := Enqueue (x : T) | Dequeue.

(** A sequence of calls; the results of the [try_dequeue] calls. *)
Fixpoint run (fuel : nat) (w : World) (ops : list Op) : exec (World * list (result T DequeueError)) :=
  match ops with
  | [] => Done (w, [])
  | Enqueue x :: ops' =>
      let? w := tx_try_enqueue fuel w x in
      run fuel w ops'
  | Dequeue :: ops' =>
      let? (w, r) := rx_try_dequeue fuel w in
      let? (w, rs) := run fuel w ops' in
      Done (w, r :: rs)
  end.

(** The first-in first-out queue the specification describes: the items
    come out in the order they went in, and [Err(Empty)] when none is
    left. *)
Fixpoint fifo_spec (q : list T) (ops : list Op) : list (result T DequeueError) :=
  match ops with
  | [] => []
  | Enqueue x :: ops' => fifo_spec (q ++ [x]) ops'
  | Dequeue :: ops' =>
      match q with
      | [] => Err Empty :: fifo_spec [] ops'
      | x :: q' => Ok x :: fifo_spec q' ops'
      end
  end.


(** [impl Drop for Tx]: the tail buffer's [ref_count] is decremented. *)
Definition tx_drop (w : World) : exec World :=
  match heap w !! tail w with
  | None => Crash
  | Some b => Done (with_heap w (<[tail w := add_ref b (-1)]> (heap w)))
  end.

(** [impl Drop for Rx]: [while !self.head.is_null()], freeing buffers
    until one is still referenced; [None] is the null pointer.  The items
    still in a freed buffer are dropped with it. *)
Fixpoint rx_drop (fuel : nat) (h : gmap nat Buffer) (hd : option nat) : exec (gmap nat Buffer) :=
  match fuel with
  | O => Spin
  | S fuel' =>
      match hd with
      | None => Done h
      | Some p =>
          match h !! p with
          | None => Crash
          | Some buffer =>
              if negb (Z.eqb (ref_count buffer) 0) then Done h
              else rx_drop fuel' (delete p h) (next buffer)
          end
      end
  end.
End Queue.

Arguments Op : clear implicits.

End Queue.

(* ------------------------------------------------------------------ *)
(** ** Invariants of the runtime and of the queue *)

Module ExecutorInv.
Import Executor.



End ExecutorInv.

Module QueueInv.
Import Queue.
Section Shape.
Context {T : Type}.

Definition consumed : @Entry T := {| data := None; state := 3 |}.
Definition written (x : T) : Entry := {| data := Some x; state := 2 |}.

(** A buffer whose first [c] entries were taken and whose next entries
    hold the pending items [xs]. *)
Definition entries_of (c : nat) (xs : list T) : list Entry :=
  replicate c consumed ++ map written xs ++ replicate (N - c - length xs) entry_default.

Definition mkbuf (c : nat) (xs : list T) (nxt : option nat) : Buffer :=
  {| entries := entries_of c xs;
     pos := match nxt with Some _ => S N | None => c + length xs end;
     ref_count := match nxt with Some _ => 0%Z | None => 1%Z end;
     next := nxt |}.

(** The segments of the queue from [head] to [tail]: segment [i] at
    address [ps !! i] holds [cs !! i = (c, xs)], [c] entries already taken
    and the pending items [xs]; [q] is the list of pending items. *)
Definition Inv (w : World) (q : list T) : Prop :=
  exists (ps : list nat) (cs : list (nat * list T)),
    NoDup ps /\ length ps = length cs /\
    ps !! 0 = Some (head w) /\ last ps = Some (tail w) /\
    (forall i p c xs, ps !! i = Some p -> cs !! i = Some (c, xs) ->
       heap w !! p = Some (mkbuf c xs (ps !! S i)) /\
       (if ps !! S i then c + length xs = N else c + length xs <= N) /\
       (i <> 0 -> c = 0 /\ xs <> [])) /\
    (exists c0 xs0, cs !! 0 = Some (c0, xs0) /\ rx_pos w <= c0) /\
    q = concat (map snd cs).

(** One [try_dequeue] on the pending items [q]. *)
Definition deq_spec (q : list T) : result T DequeueError * list T :=
  match q with [] => (Err Empty, []) | x :: q' => (Ok x, q') end.

End Shape.
End QueueInv.

(* ------------------------------------------------------------------ *)
(** ** Sample runtime and queue runs *)

Module ExecutorSamples.
Import Executor.

(** Task [t] in state [f] is ready when [f = 0], and wakes itself. *)
Definition sample_poll (t : nat) (f : nat) : TaskPoll * nat * list nat :=
  (if Nat.eqb f 0 then TReady else TPending, f - 1, [t]).

Definition sample_irq (p t : nat) : list nat := [].


End ExecutorSamples.

Module QueueSamples.
Import Queue.

(** An allocator returning the least unused address. *)
Definition sample_alloc (h : gmap nat (@Buffer nat)) : nat := fresh (dom h).

Definition sample_ops : list (Op nat) :=
  map Enqueue (seq 1 9) ++ [Dequeue; Dequeue] ++ map Enqueue (seq 20 3) ++ repeat Dequeue 13.

(** The queue after [try_enqueue] of 1, .., [n] on a fresh [queue]. *)
Definition sample_world (n : nat) : @World nat :=
  match run sample_alloc 2 (queue sample_alloc ∅) (map Enqueue (seq 1 n)) with
  | Timer.Done (w, _) => w
  | _ => queue sample_alloc ∅
  end.

End QueueSamples.

(* ------------------------------------------------------------------ *)
(** ** Sample timer runs *)

Module TimerSamples.
Import Codec Timer.

(** [add_ms(k, waker k)] for [k = 1, .., n], from [wd]. *)
Fixpoint fill (n : nat) (wd : World) : exec World :=
  match n with
  | O => Done wd
  | S n' =>
      let? wd := fill n' wd in
      let? (_, wd) := add_ms (S n') (S n') wd in
      Done wd
  end.

(** The wheel after [fill 31] on a fresh wheel at position 0. *)
Definition filled31 : World :=
  match fill 31 (fresh 0) with Done wd => wd | _ => fresh 0 end.

End TimerSamples.

(* ------------------------------------------------------------------ *)
(** ** Sample packets *)

Module Samples.
Import Codec Packet.

Definition dp_a : DataPoint := {| dp_name := [97%Z]; dp_value := Switch true |}.



(** A packet whose [protocol_version] field is not [VERSION]. *)
Definition p_v7 : Packet :=
  {| protocol_version := 7; receiver := Everyone; data := Init 5 |}.

(** A metrics probe and an acknowledgement addressed to extension 3, as
    256-byte frames. *)
Definition frame_of (p : Packet) : list Z :=
  match serialize p with Ret b => b | Panic => [] end.

Definition p_metrics3 : Packet :=
  {| protocol_version := 0; receiver := ID 3; data := Metrics |}.

Definition frame_metrics3 : list Z := frame_of p_metrics3.
Definition frame_ack3 : list Z := frame_of (ack (ID 3)).

(** A frame whose discriminator byte is 11. *)
Definition frame_unknown : list Z := [0%Z; 3%Z; 11%Z] ++ replicate 253 0%Z.

End Samples.

(* ================================================================== *)
(** * Proofs *)

(** ** Codec lemmas *)

Module CodecFacts.
Import Codec Packet Wire.

Lemma as_u8_small n : n <= 255 -> as_u8 n = Z.of_nat n.
Proof. intros Hn. unfold as_u8. apply Z.mod_small. lia. Qed.

Lemma obind_ret {A B} (a : A) (k : A -> outcome B) : obind (Ret a) k = k a.
Proof. reflexivity. Qed.

Lemma idx_app_l (b e : list Z) i x : idx b i = Ret x -> idx (b ++ e) i = Ret x.
Proof.
  unfold idx. destruct (b !! i) eqn:E; [|discriminate]. intros [= <-].
  by rewrite (lookup_app_l_Some _ _ _ _ E).
Qed.

Lemma slice_app_l (b e : list Z) i j s :
  slice b i j = Ret s -> slice (b ++ e) i j = Ret s.
Proof.
  unfold slice. destruct (decide _) as [[H1 H2]|]; [|discriminate]. intros [= <-].
  rewrite decide_True; [|rewrite length_app; lia]. f_equal.
  rewrite drop_app_le by lia. rewrite take_app_le; [done|]. rewrite length_drop. lia.
Qed.

Lemma slice_ok (b : list Z) i j : i <= j -> j <= length b -> slice b i j = Ret (take (j - i) (drop i b)).
Proof. intros. unfold slice. by rewrite decide_True. Qed.

Lemma str_serialize_ok s buf :
  length s <= 255 -> 1 + length s <= length buf ->
  str_serialize s buf = Ret (Ok (enc_str s, drop (length (enc_str s)) buf)).
Proof.
  intros Hs Hb. unfold str_serialize, enc_str. rewrite decide_False by lia.
  by rewrite as_u8_small.
Qed.

Lemma str_deserialize_ok s rest :
  str_ok s -> str_deserialize (enc_str s ++ rest) = Ret (Ok (s, rest)).
Proof.
  intros [Hu Hl]. unfold str_deserialize, enc_str. simpl.
  rewrite Nat2Z.id. rewrite slice_ok by (simpl; rewrite ?length_app; lia).
  simpl. rewrite drop_0. replace (length s + 1 - 1) with (length s) by lia.
  rewrite take_app_length, Hu. by rewrite drop_app_length.
Qed.

Lemma str_deserialize_ext b e x r :
  str_deserialize b = Ret (Ok (x, r)) -> str_deserialize (b ++ e) = Ret (Ok (x, r ++ e)).
Proof.
  unfold str_deserialize. destruct (idx b 0) as [len|] eqn:Hi; [|discriminate]. simpl.
  rewrite (idx_app_l _ _ _ _ Hi). simpl.
  destruct (slice b 1 (Z.to_nat len + 1)) as [v|] eqn:Hs; [|discriminate]. simpl.
  rewrite (slice_app_l _ _ _ _ _ Hs). simpl.
  destruct (utf8_valid v); [|discriminate]. intros [= <- <-].
  unfold slice in Hs. destruct (decide _) as [[_ Hle]|]; [|discriminate].
  by rewrite drop_app_le by lia.
Qed.

Lemma DataPoint_serialize_ok dp buf :
  dp_ok dp -> length (enc_dp dp) <= length buf ->
  DataPoint_serialize dp buf = Ret (Ok (enc_dp dp, drop (length (enc_dp dp)) buf)).
Proof.
  intros [Hu Hl] Hb. unfold enc_dp in *. rewrite length_app in Hb.
  assert (Hv : length (Value_serialize (dp_value dp)) = 2) by (by destruct (dp_value dp)).
  rewrite Hv in Hb.
  unfold DataPoint_serialize. rewrite str_serialize_ok by (unfold enc_str in Hb; simpl in Hb; lia).
  simpl. rewrite length_drop. unfold enc_str in *. simpl in *.
  rewrite decide_False by lia. f_equal. f_equal. f_equal.
  by rewrite drop_drop, length_app, Hv.
Qed.

Lemma Value_deserialize_ok v rest :
  Value_deserialize (take 2 (Value_serialize v ++ rest)) = Ret (Ok v).
Proof. by destruct v as [[]|]. Qed.

Lemma DataPoint_deserialize_ok dp rest :
  dp_ok dp -> DataPoint_deserialize (enc_dp dp ++ rest) = Ret (Ok (dp, rest)).
Proof.
  intros Hok. unfold DataPoint_deserialize, enc_dp. rewrite <- app_assoc.
  rewrite str_deserialize_ok by done. simpl.
  assert (Hv : length (Value_serialize (dp_value dp)) = 2) by (by destruct (dp_value dp)).
  rewrite slice_ok by (rewrite ?length_app; lia). simpl.
  rewrite drop_0, Value_deserialize_ok. simpl. rewrite <- Hv, drop_app_length. by destruct dp.
Qed.

Lemma DataPoint_deserialize_ext b e x r :
  DataPoint_deserialize b = Ret (Ok (x, r)) ->
  DataPoint_deserialize (b ++ e) = Ret (Ok (x, r ++ e)).
Proof.
  unfold DataPoint_deserialize.
  destruct (str_deserialize b) as [[[name rest]|]|] eqn:Hs; simpl; try discriminate.
  rewrite (str_deserialize_ext _ _ _ _ Hs). simpl.
  destruct (slice rest 0 2) as [two|] eqn:Hsl; [|discriminate]. simpl.
  rewrite (slice_app_l _ _ _ _ _ Hsl). simpl.
  destruct (Value_deserialize two) as [[v|]|]; simpl; try discriminate.
  intros [= <- <-]. unfold slice in Hsl. destruct (decide _) as [[_ Hle]|]; [|discriminate].
  by rewrite drop_app_le by lia.
Qed.

Lemma ConfigOption_serialize_ok co buf :
  co_ok co -> length (enc_co co) <= length buf ->
  ConfigOption_serialize co buf = Ret (Ok (enc_co co, drop (length (enc_co co)) buf)).
Proof.
  intros [Hu Hl] Hb. unfold enc_co, enc_str in *. rewrite length_app in Hb. simpl in Hb.
  unfold ConfigOption_serialize. rewrite str_serialize_ok by lia.
  unfold enc_str. simpl. unfold set. rewrite decide_True by (rewrite length_drop; simpl; lia).
  simpl. destruct (drop (S (length (co_name co))) buf) as [|y ys] eqn:Hd.
  - apply (f_equal length) in Hd. rewrite length_drop in Hd. simpl in Hd. lia.
  - simpl. rewrite length_app. simpl.
    replace (S (length (co_name co) + 1)) with (S (length (co_name co)) + 1) by lia.
    rewrite <- drop_drop, Hd. by destruct (co_ty co).
Qed.

Lemma ConfigOption_deserialize_ok co rest :
  co_ok co -> ConfigOption_deserialize (enc_co co ++ rest) = Ret (Ok (co, rest)).
Proof.
  intros Hok. unfold ConfigOption_deserialize, enc_co. rewrite <- app_assoc.
  rewrite str_deserialize_ok by done. simpl. by destruct co as [? []].
Qed.

Lemma ConfigOption_deserialize_ext b e x r :
  ConfigOption_deserialize b = Ret (Ok (x, r)) ->
  ConfigOption_deserialize (b ++ e) = Ret (Ok (x, r ++ e)).
Proof.
  unfold ConfigOption_deserialize.
  destruct (str_deserialize b) as [[[name rest]|]|] eqn:Hs; simpl; try discriminate.
  rewrite (str_deserialize_ext _ _ _ _ Hs). simpl.
  destruct (idx rest 0) as [t|] eqn:Hi; [|discriminate]. simpl.
  rewrite (idx_app_l _ _ _ _ Hi). simpl.
  destruct (_ : outcome ValueType) as [ty|]; simpl; [|discriminate].
  intros [= <- <-]. unfold idx in Hi. destruct (rest !! 0) eqn:E; [|discriminate].
  destruct rest; [discriminate|]. done.
Qed.

End CodecFacts.

Module ListFacts.
Import Codec Packet Wire.

Section Generic.
Context {T : Type} `{Sendable T} (enc : T -> list Z) (wf : T -> Prop).
Hypothesis ser_ok : forall x buf, wf x -> length (enc x) <= length buf ->
  Codec.serialize x buf = Ret (Ok (enc x, drop (length (enc x)) buf)).
Hypothesis de_ok : forall x rest, wf x -> Codec.deserialize (enc x ++ rest) = Ret (Ok (x, rest)).
Hypothesis de_ext : forall b e x r, Codec.deserialize b = Ret (Ok (x, r)) ->
  Codec.deserialize (b ++ e) = Ret (Ok (x, r ++ e)).

Lemma serialize_items_ok data buf :
  Forall wf data -> length (concat (map enc data)) <= length buf ->
  serialize_items data buf =
    Ret (Ok (concat (map enc data), drop (length (concat (map enc data))) buf)).
Proof.
  revert buf. induction data as [|x data IH]; intros buf Hwf Hlen; simpl.
  - by rewrite drop_0.
  - inversion Hwf; subst. simpl in Hlen. rewrite length_app in Hlen.
    rewrite ser_ok by (done || lia). simpl.
    rewrite IH by (done || (rewrite length_drop; lia)). simpl.
    by rewrite drop_drop, length_app.
Qed.

Lemma deserialize_items_enc data rest k :
  Forall wf data ->
  deserialize_items (length data) (concat (map enc data) ++ rest) k =
    Ret (Ok (k + length (concat (map enc data)), rest)).
Proof.
  revert k. induction data as [|x data IH]; intros k Hwf; simpl.
  - by rewrite Nat.add_0_r.
  - inversion Hwf; subst. rewrite <- app_assoc, de_ok by done. simpl.
    rewrite IH by done. f_equal. f_equal. f_equal. rewrite !length_app. lia.
Qed.

Lemma deserialize_items_ext n b e k k' r :
  deserialize_items n b k = Ret (Ok (k', r)) ->
  deserialize_items n (b ++ e) k = Ret (Ok (k', r ++ e)).
Proof.
  revert b k. induction n as [|n IH]; intros b k; simpl.
  - by intros [= <- <-].
  - destruct (Codec.deserialize b) as [[[x tmp]|err]|] eqn:Hd; simpl; try discriminate.
    rewrite (de_ext _ _ _ _ Hd). simpl. intros Hn. apply IH in Hn.
    replace (length (b ++ e) - length (tmp ++ e)) with (length b - length tmp) by (rewrite !length_app; lia). exact Hn.
Qed.

Lemma OptionsIter_serialize_ok (it : OptionsIter T) buf :
  list_ok wf it -> length (enc_list enc it) <= length buf ->
  OptionsIter_serialize it buf =
    Ret (Ok (enc_list enc it, drop (length (enc_list enc it)) buf)).
Proof.
  intros Hok Hlen. destruct buf as [|b0 buf]; [simpl in Hlen; destruct it; simpl in Hlen; lia|].
  destruct it as [rbuf len|data index]; simpl in *.
  - destruct (decide _); [|lia]. by rewrite Nat.add_1_r.
  - destruct Hok as [Hwf Hn]. rewrite serialize_items_ok by (done || lia). done.
Qed.

Lemma OptionsIter_deserialize_ok (it : OptionsIter T) rest :
  list_ok wf it ->
  OptionsIter_deserialize (enc_list enc it ++ rest) = Ret (Ok (wire_iter enc it, rest)).
Proof.
  intros Hok. destruct it as [rbuf len|data index]; simpl in *.
  - destruct Hok as [Hn Hd]. rewrite CodecFacts.as_u8_small, Nat2Z.id by done.
    rewrite (deserialize_items_ext _ _ _ _ _ _ Hd). simpl.
    rewrite CodecFacts.slice_ok by (simpl; rewrite ?length_app; lia). simpl.
    rewrite Nat.sub_0_r, drop_0, take_app_length. done.
  - destruct Hok as [Hwf Hn]. rewrite CodecFacts.as_u8_small, Nat2Z.id by done.
    rewrite deserialize_items_enc by done. simpl.
    rewrite CodecFacts.slice_ok by (simpl; rewrite ?length_app; lia). simpl.
    rewrite Nat.sub_0_r, drop_0, take_app_length. done.
Qed.

Lemma received_items_enc data :
  Forall wf data ->
  received_items (length data) (concat (map enc data)) = Ret data.
Proof.
  induction data as [|x data IH]; intros Hwf; simpl; [done|].
  inversion Hwf; subst. rewrite de_ok by done. simpl. by rewrite IH.
Qed.

Lemma collect_wire_iter (it : OptionsIter T) :
  list_ok wf it -> collect (wire_iter enc it) = carried it.
Proof.
  destruct it as [rbuf len|data index]; simpl; [done|].
  intros [Hwf _]. by apply received_items_enc.
Qed.

End Generic.

End ListFacts.

Module PacketFacts.
Import Codec Packet Wire CodecFacts ListFacts.

Lemma set_ok (buf : list Z) i v : i < length buf -> set buf i v = Ret (<[i := v]> buf).
Proof. intros. unfold set. by rewrite decide_True. Qed.

Lemma enc_dp_length dp : length (enc_dp dp) = length (dp_name dp) + 3.
Proof. unfold enc_dp, enc_str. rewrite length_app. destruct (dp_value dp); simpl; lia. Qed.

Lemma PacketData_serialize_ok pd (d0 : Z) (l : list Z) :
  payload_ok pd -> length l = 252 ->
  PacketData_serialize pd (d0 :: l) =
    Ret (payload_bytes pd ++ drop (length (payload_bytes pd)) (d0 :: l)).
Proof.
  intros [Hok Hlen] Hl.
  destruct l as [|d1 [|d2 l]]; simpl in Hl; try lia.
  destruct pd as [| | | | | |option| |metrics| |options].
  1-6,8,10: simpl in *; try done;
    repeat (rewrite set_ok by (simpl; lia); simpl); done.
  - (* Configure *)
    simpl in Hok, Hlen. destruct Hok as [Hu Hn].
    assert (Hv : length (Value_serialize (dp_value option)) = 2)
      by (by destruct (dp_value option)).
    unfold enc_dp, enc_str in Hlen. rewrite length_app, Hv in Hlen. simpl in Hlen.
    unfold PacketData_serialize. rewrite set_ok by (simpl; lia). simpl obind.
    change (drop 1 (<[0:=6%Z]> (d0 :: d1 :: d2 :: l))) with (d1 :: d2 :: l).
    rewrite str_serialize_ok by (simpl; lia). simpl obind.
    rewrite decide_False by (rewrite length_drop; unfold enc_str; simpl; lia).
    unfold payload_bytes, enc_dp, enc_str. simpl.
    by rewrite <- app_assoc, drop_drop, length_app, Hv, Nat.add_comm.
  - (* MetricsResponse *)
    simpl in Hok, Hlen.
    unfold PacketData_serialize. rewrite set_ok by (simpl; lia). rewrite obind_ret. cbv beta.
    change (drop 1 (<[0:=8%Z]> (d0 :: d1 :: d2 :: l))) with (d1 :: d2 :: l).
    rewrite (@OptionsIter_serialize_ok _ DataPoint_Sendable enc_dp dp_ok DataPoint_serialize_ok)
      by (done || simpl; lia).
    done.
  - (* ConfigureOptionsResponse *)
    simpl in Hok, Hlen.
    unfold PacketData_serialize. rewrite set_ok by (simpl; lia). rewrite obind_ret. cbv beta.
    change (drop 1 (<[0:=10%Z]> (d0 :: d1 :: d2 :: l))) with (d1 :: d2 :: l).
    rewrite (@OptionsIter_serialize_ok _ ConfigOption_Sendable enc_co co_ok ConfigOption_serialize_ok)
      by (done || simpl; lia).
    done.
Qed.

Lemma slice_tail (z : Z) (x : list Z) : slice (z :: x) 1 (length (z :: x)) = Ret x.
Proof. rewrite slice_ok by (simpl; lia). simpl. rewrite Nat.sub_0_r. apply f_equal, take_ge. lia. Qed.

Lemma parse_ok pd rest :
  payload_ok pd -> length (payload_bytes pd ++ rest) = 253 ->
  parse 0 (payload_bytes pd ++ rest) = Ret (Ok (wire_data pd)).
Proof.
  intros [Hok Hlen] Hl.
  destruct pd as [|status id| | | | |dp| |metrics| |options]; simpl in *; try done.
  - destruct status, id; simpl; try done.
    all: exfalso; naive_solver.
  - unfold parse. simpl. rewrite slice_tail. simpl.
    pose proof (str_deserialize_ok (dp_name dp) (Value_serialize (dp_value dp) ++ rest) Hok) as Hs.
    unfold enc_str in Hs. simpl in Hs. rewrite <- app_assoc, Hs. simpl.
    assert (Hv : length (Value_serialize (dp_value dp)) = 2) by (by destruct (dp_value dp)).
    rewrite slice_ok by (rewrite ?length_app in *; lia). simpl. rewrite drop_0.
    rewrite Value_deserialize_ok. simpl. by destruct dp.
  - unfold parse. simpl. rewrite slice_tail. simpl.
    rewrite (@OptionsIter_deserialize_ok _ DataPoint_Sendable enc_dp dp_ok DataPoint_deserialize_ok DataPoint_deserialize_ext metrics rest Hok).
    done.
  - unfold parse. simpl. rewrite slice_tail. simpl.
    rewrite (@OptionsIter_deserialize_ok _ ConfigOption_Sendable enc_co co_ok ConfigOption_deserialize_ok ConfigOption_deserialize_ext options rest Hok).
    done.
Qed.

Lemma serialize_ok p :
  packet_ok p ->
  serialize p = Ret ([0%Z; u8_of_ReceiverID (receiver p)] ++ payload_bytes (data p) ++
                     replicate (253 - length (payload_bytes (data p))) 0%Z ++ [0%Z]).
Proof.
  intros (Hv & Hr & Hp). unfold serialize.
  rewrite set_ok by (rewrite length_replicate; lia). rewrite obind_ret.
  rewrite set_ok by (rewrite length_insert, length_replicate; lia). rewrite obind_ret.
  set (r := u8_of_ReceiverID (receiver p)).
  assert (Hb : <[1:=r]> (<[0:=VERSION]> (replicate 256 0%Z)) = [0%Z; r] ++ replicate 254 0%Z)
    by reflexivity.
  rewrite Hb. clear Hb.
  change (take 253 (drop 2 ([0%Z; r] ++ replicate 254 0%Z))) with (0%Z :: replicate 252 0%Z).
  rewrite PacketData_serialize_ok by (done || by rewrite length_replicate). rewrite obind_ret.
  destruct Hp as [_ Hlen].
  change (0%Z :: replicate 252 0%Z) with (replicate 253 (0%Z)).
  rewrite drop_replicate.
  change (take 2 ([0%Z; r] ++ replicate 254 0%Z)) with [0%Z; r].
  change (drop 255 ([0%Z; r] ++ replicate 254 0%Z)) with [0%Z].
  assert (Hl : length (([0%Z; r] ++ payload_bytes (data p)) ++
                 replicate (253 - length (payload_bytes (data p))) 0%Z) = 255)
    by (rewrite !length_app, length_replicate; simpl; lia).
  rewrite !app_assoc. rewrite set_ok by (rewrite length_app, Hl; simpl; lia).
  rewrite insert_app_r_alt by lia. rewrite Hl, Nat.sub_diag. by rewrite <- !app_assoc.
Qed.

Lemma ReceiverID_roundtrip r : receiver_ok r -> ReceiverID_of_u8 (u8_of_ReceiverID r) = r.
Proof.
  destruct r as [| |n]; simpl; try done. intros Hn. unfold ReceiverID_of_u8.
  destruct (Z.eqb_spec n 0); [lia|]. destruct (Z.eqb_spec n 255); [lia|]. done.
Qed.

Lemma deserialize_frame p :
  packet_ok p ->
  deserialize ([0%Z; u8_of_ReceiverID (receiver p)] ++ payload_bytes (data p) ++
               replicate (253 - length (payload_bytes (data p))) 0%Z ++ [0%Z])
  = Ret (Ok (wire_form p)).
Proof.
  intros (Hv & Hr & Hp). pose proof Hp as [_ Hlen].
  set (pb := payload_bytes (data p)). set (rp := replicate (253 - length pb) 0%Z).
  assert (Hl : length (pb ++ rp) = 253). { unfold rp, pb. rewrite length_app, length_replicate. lia. }
  unfold deserialize. cbn [idx lookup list_lookup app obind].
  rewrite app_assoc.
  rewrite slice_ok by (try lia; cbn [length]; rewrite length_app, Hl; cbn; lia).
  change (255 - 2) with 253. cbn [skipn]. rewrite drop_0.
  rewrite take_app_length' by done. rewrite obind_ret.
  unfold idx. change ((0%Z :: u8_of_ReceiverID (receiver p) :: (pb ++ rp) ++ [0%Z]) !! 255)
    with (((pb ++ rp) ++ [0%Z]) !! 253).
  rewrite lookup_app_r by lia. rewrite Hl. cbn. 
  unfold pb, rp. rewrite parse_ok by (done || rewrite length_app, length_replicate; lia).
  cbn. rewrite ReceiverID_roundtrip by done. by destruct p; simpl in *; subst.
Qed.

Lemma serialize_version_crc p buf :
  serialize p = Ret buf -> buf !! 0 = Some VERSION /\ buf !! 255 = Some 0%Z.
Proof.
  unfold serialize.
  rewrite set_ok by (rewrite length_replicate; lia). rewrite obind_ret.
  rewrite set_ok by (rewrite length_insert, length_replicate; lia). rewrite obind_ret.
  destruct (PacketData_serialize _ _) as [payload|]; simpl; [|discriminate].
  unfold set. destruct (decide _) as [Hl|]; [|discriminate]. intros [= <-]. split.
  - reflexivity.
  - simpl in Hl |- *. apply list_lookup_insert_eq. lia.
Qed.

Lemma deserialize_ignores_crc (b : list Z) (x : Z) :
  deserialize (<[255 := x]> b) = deserialize b.
Proof.
  destruct (decide (255 < length b)) as [Hl|Hl]; [|by rewrite list_insert_ge by lia].
  unfold deserialize, idx.
  rewrite !list_lookup_insert_ne by lia.
  destruct (b !! 0), (b !! 1); simpl; try done.
  unfold slice. rewrite length_insert.
  destruct (decide _); simpl; [|done].
  rewrite drop_insert_ge by lia. rewrite take_insert_ge by lia.
  rewrite list_lookup_insert_eq by lia.
  destruct (lookup_lt_is_Some_2 b 255 Hl) as [c ->]. done.
Qed.

End PacketFacts.


(** ** Write loops *)

Module RolesFacts.
Import Codec Packet Roles.

Lemma write_byte_loop_spins fuel dev b s :
  (forall j, dev j <> WOther) ->
  exists n c, write_byte_loop fuel dev b s = Running {| calls := c; sent := sent s ++ replicate n b |}.
Proof.
  intros Hdev. revert s. induction fuel as [|fuel IH]; intros s; simpl.
  - exists 0, (calls s). rewrite app_nil_r. by destruct s.
  - unfold write_call. specialize (Hdev (calls s)). destruct (dev (calls s)) eqn:E; try done.
    + destruct (IH {| calls := S (calls s); sent := sent s ++ [b] |}) as (n & c & ->).
      exists (S n), c. simpl. by rewrite <- app_assoc.
    + destruct (IH {| calls := S (calls s); sent := sent s |}) as (n & c & ->).
      by exists n, c.
Qed.

Lemma write_bytes_looping_spins fuel dev b bs s :
  (forall j, dev j <> WOther) ->
  exists n c, write_bytes_looping fuel dev (b :: bs) s =
    Running {| calls := c; sent := sent s ++ replicate n b |}.
Proof.
  intros Hdev. destruct (write_byte_loop_spins fuel dev b s Hdev) as (n & c & Hw).
  exists n, c. simpl. by rewrite Hw.
Qed.

End RolesFacts.


(** ** Timer wheel lemmas *)

Module TimerFacts.
Import Codec Timer.

Lemma wrap_mod32 x y : ((usize_wrap x + y) mod 32 = (x + y) mod 32)%Z.
Proof.
  unfold usize_wrap. rewrite (Z.mod_eq x (2 ^ 64)) by lia.
  replace (x - 2 ^ 64 * (x / 2 ^ 64) + y)%Z with (x + y + (- (2 ^ 59 * (x / 2 ^ 64))) * 32)%Z by ring.
  apply Z_mod_plus_full.
Qed.

Lemma wrap_small x : (0 <= x < 2 ^ 64)%Z -> usize_wrap x = x.
Proof. intros. unfold usize_wrap. by apply Z.mod_small. Qed.

Lemma wrap_range x : (0 <= usize_wrap x < 2 ^ 64)%Z.
Proof. unfold usize_wrap. apply Z.mod_pos_bound. lia. Qed.

Lemma wrap_add1 x n : usize_wrap (usize_wrap (x + 1) + n) = usize_wrap (x + 1 + n).
Proof. unfold usize_wrap. by rewrite Z.add_mod_idemp_l by lia. Qed.

Lemma ticks_miss n c sl st lg :
  (0 <= c < 2 ^ 64)%Z ->
  (forall j, j < n -> sl !! Z.to_nat ((c + Z.of_nat j + 1) mod 32) = Some (-1)%Z) ->
  ticks n {| wheel := {| current := c; slots := sl |}; storage := st; woken := lg |} =
    Done {| wheel := {| current := usize_wrap (c + Z.of_nat n); slots := sl |};
            storage := st; woken := lg |}.
Proof.
  revert c. induction n as [|n IH]; intros c Hc Hs.
  - simpl. by rewrite Z.add_0_r, wrap_small.
  - simpl. unfold tick. simpl.
    pose proof (Hs 0 ltac:(lia)) as H0. rewrite Z.add_0_r in H0. rewrite H0. simpl.
    rewrite IH.
    + f_equal. f_equal. f_equal. rewrite wrap_add1. f_equal. lia.
    + apply wrap_range.
    + intros j Hj. rewrite <- Z.add_assoc, wrap_mod32.
      replace (c + 1 + (Z.of_nat j + 1))%Z with (c + Z.of_nat (S j) + 1)%Z by lia.
      apply Hs. lia.
Qed.

Lemma bucket_lt c time i : bucket c time i < 32.
Proof. unfold bucket. pose proof (Z.mod_pos_bound (c + Z.of_nat time + Z.of_nat i) 32 ltac:(lia)). lia. Qed.

Lemma probe_hit f i cur time widx sl :
  sl !! bucket cur time i = Some (-1)%Z ->
  probe (S f) i cur time widx sl = Done (Some (<[bucket cur time i := Z.of_nat widx]> sl)).
Proof. intros H. simpl. by rewrite H. Qed.

Lemma find_free_fresh : find_free (replicate 32 empty_slot) 0 = Some 0.
Proof. reflexivity. Qed.

Lemma ticks_add n m wd : ticks (n + m) wd = let? wd := ticks n wd in ticks m wd.
Proof.
  revert wd. induction n as [|n IH]; intros wd; simpl; [done|].
  destruct (tick wd); simpl; auto.
Qed.

Lemma ticks_last n wd : 0 < n -> ticks n wd = let? wd := ticks (n - 1) wd in tick wd.
Proof.
  intros Hn. replace n with ((n - 1) + 1) at 1 by lia. rewrite ticks_add.
  destruct (ticks (n - 1) wd); simpl; try done. by destruct (tick a).
Qed.



Lemma find_free_lt ws i j : find_free ws i = Some j -> i <= j < i + length ws.
Proof.
  revert i. induction ws as [|s ws IH]; intros i; simpl; [discriminate|].
  destruct (state s =? 0)%Z; [intros [= <-]; lia|].
  intros H. apply IH in H. lia.
Qed.

Lemma probe_none fuel i cur time widx sl :
  length sl = 32 ->
  (forall j, i <= j < i + fuel -> sl !! bucket cur time j <> Some (-1)%Z) ->
  probe fuel i cur time widx sl = Done None.
Proof.
  intros Hl. revert i. induction fuel as [|fuel IH]; intros i H; simpl; [done|].
  destruct (lookup_lt_is_Some_2 sl (bucket cur time i)) as [v Hv];
    [rewrite Hl; apply bucket_lt|].
  rewrite Hv. destruct (Z.eqb_spec v (-1)) as [->|]; [exfalso; apply (H i); [lia|done]|].
  apply IH. intros j Hj. apply H. lia.
Qed.

Lemma probe_some fuel i cur time widx sl :
  length sl = 32 ->
  (exists j, i <= j < i + fuel /\ sl !! bucket cur time j = Some (-1)%Z) ->
  exists b, probe fuel i cur time widx sl = Done (Some (<[b := Z.of_nat widx]> sl)) /\
            sl !! b = Some (-1)%Z.
Proof.
  intros Hl. revert i. induction fuel as [|fuel IH]; intros i (j & Hj & Hs); [lia|].
  simpl.
  destruct (lookup_lt_is_Some_2 sl (bucket cur time i)) as [v Hv];
    [rewrite Hl; apply bucket_lt|].
  rewrite Hv. destruct (Z.eqb_spec v (-1)) as [->|Hne]; [by eexists|].
  apply IH. exists j. split; [|done].
  destruct (decide (j = i)) as [->|]; [congruence|lia].
Qed.

(** The bucket [probe] fills is the first free one it reaches. *)
Lemma probe_first fuel i cur time widx sl :
  length sl = 32 ->
  (exists j, i <= j < i + fuel /\ sl !! bucket cur time j = Some (-1)%Z) ->
  exists k, i <= k < i + fuel /\ sl !! bucket cur time k = Some (-1)%Z /\
    (forall j, i <= j < k -> sl !! bucket cur time j <> Some (-1)%Z) /\
    probe fuel i cur time widx sl = Done (Some (<[bucket cur time k := Z.of_nat widx]> sl)).
Proof.
  intros Hl. revert i. induction fuel as [|fuel IH]; intros i (j & Hj & Hs); [lia|].
  simpl.
  destruct (lookup_lt_is_Some_2 sl (bucket cur time i)) as [v Hv];
    [rewrite Hl; apply bucket_lt|].
  rewrite Hv. destruct (Z.eqb_spec v (-1)) as [->|Hne].
  - exists i. split; [lia|]. split; [done|]. split; [intros; lia|done].
  - destruct (IH (S i)) as (k & Hk & Hks & Hbefore & Hp).
    { exists j. split; [|done]. destruct (decide (j = i)) as [->|]; [congruence|lia]. }
    exists k. split; [lia|]. split; [done|]. split; [|done].
    intros j' Hj'. destruct (decide (j' = i)) as [->|].
    + rewrite Hv. congruence.
    + apply Hbefore. lia.
Qed.

End TimerFacts.

(** ** The runtime *)

Module ExecutorFacts.
Import Executor ExecutorInv.
Section F.
Context {Fut : Type} (poll_fut : nat -> Fut -> TaskPoll * Fut * list nat)
        (irq : nat -> nat -> list nat).




End F.


End ExecutorFacts.

(** ** The queue *)

Module QueueFacts.
Import Timer(exec, Done, Crash, Spin, ebind).
Import Queue QueueInv.
Section F.
Context {T : Type}.
Variable al : gmap nat (@Buffer T) -> nat.
Hypothesis al_fresh : forall h, h !! al h = None.

Lemma entries_length c (xs : list T) : c + length xs <= N -> length (entries_of c xs) = N.
Proof. intros H. unfold entries_of. rewrite !length_app, length_map, !length_replicate. lia. Qed.

Lemma entries_push c (xs : list T) x : c + length xs < N ->
  <[c + length xs := written x]> (entries_of c xs) = entries_of c (xs ++ [x]).
Proof.
  intros H. unfold entries_of.
  rewrite insert_app_r_alt by (rewrite length_replicate; lia).
  rewrite length_replicate, insert_app_r_alt by (rewrite length_map; lia).
  rewrite length_map. replace (c + length xs - c - length xs) with 0 by lia.
  replace (N - c - length xs) with (S (N - c - length (xs ++ [x]))) by (rewrite length_app; cbn [length]; lia).
  cbn. rewrite map_app, <- app_assoc. reflexivity.
Qed.

Lemma entries_pop c (x : T) xs :
  <[c := consumed]> (entries_of c (x :: xs)) = entries_of (S c) xs.
Proof.
  unfold entries_of. rewrite insert_app_r_alt by (rewrite length_replicate; lia).
  rewrite length_replicate, Nat.sub_diag. cbn [map length].
  replace (N - c - S (length xs)) with (N - S c - length xs) by lia.
  rewrite replicate_S_end, <- app_assoc. reflexivity.
Qed.

Lemma first_set_consumed i n (l : list (@Entry T)) : first_set i (replicate n consumed ++ l) = first_set (i + n) l.
Proof.
  revert i. induction n as [|n IH]; intros i; cbn; [f_equal; lia|].
  rewrite IH. f_equal. lia.
Qed.

Lemma first_set_default i n : first_set i (replicate n (@entry_default T)) = None.
Proof. revert i. induction n as [|n IH]; intros i; cbn; [reflexivity|apply IH]. Qed.

Lemma drop_entries rp c (xs : list T) : rp <= c ->
  drop rp (entries_of c xs) =
  replicate (c - rp) consumed ++ map written xs ++ replicate (N - c - length xs) entry_default.
Proof.
  intros H. unfold entries_of. rewrite drop_app_le by (rewrite length_replicate; lia).
  rewrite drop_replicate. reflexivity.
Qed.

Lemma try_enqueue_fits c (xs : list T) x : c + length xs < N ->
  buffer_try_enqueue (mkbuf c xs None) x = (mkbuf c (xs ++ [x]) None, Ok tt).
Proof.
  intros H. unfold buffer_try_enqueue.
  change (pos (mkbuf c xs None)) with (c + length xs).
  destruct (N <=? c + length xs) eqn:E; [apply Nat.leb_le in E; lia|].
  unfold set_entries, mkbuf. cbn [entries pos ref_count next].
  do 2 (rewrite list_insert_insert, decide_True by reflexivity).
  fold (written x). fold (entries_of c xs). rewrite (entries_push c xs x H), length_app. cbn [length].
  rewrite Nat.add_1_r, Nat.add_succ_r. reflexivity.
Qed.

Lemma try_enqueue_full c (xs : list T) x : c + length xs = N ->
  buffer_try_enqueue (mkbuf c xs None) x =
  ({| entries := entries_of c xs; pos := S N; ref_count := 1%Z; next := None |}, Err x).
Proof.
  intros H. unfold buffer_try_enqueue.
  change (pos (mkbuf c xs None)) with (c + length xs).
  rewrite H, Nat.leb_refl. reflexivity.
Qed.

Lemma take_entry c (x : T) xs nxt :
  set_entries (mkbuf c (x :: xs) nxt) (entries_of (S c) xs) = mkbuf (S c) xs nxt.
Proof. unfold set_entries, mkbuf. cbn. destruct nxt; f_equal; lia. Qed.

Lemma queue_inv h : @Inv T (queue al h) [].
Proof.
  exists [al h], [(0, [])]. cbn. rewrite lookup_insert_eq.
  split; [apply NoDup_singleton|]. split; [reflexivity|].
  split; [reflexivity|]. split; [reflexivity|].
  split; [|split; [exists 0, []; split; reflexivity|reflexivity]].
  intros i p c xs Hp Hc. destruct i as [|i]; [|discriminate].
  inversion Hp; inversion Hc; subst. cbn. rewrite lookup_insert_eq.
  split; [reflexivity|]. split; [cbv; lia|]. congruence.
Qed.


Lemma enqueue_ok (w : @World T) q x fuel :
  Inv w q -> 2 <= fuel ->
  exists w', tx_try_enqueue al fuel w x = Done w' /\ Inv w' (q ++ [x]).
Proof.
  intros (ps & cs & Hnd & Hlen & Hhd & Hlast & Hpt & Hrx & Hq) Hf.
  assert (Hne : ps <> []) by (intros ->; discriminate).
  destruct (exists_last Hne) as (ps0 & t & ->).
  rewrite last_snoc in Hlast. injection Hlast as Ht.
  assert (Hcne : cs <> []) by (intros ->; rewrite length_app in Hlen; cbn in Hlen; lia).
  destruct (exists_last Hcne) as (cs0 & [c xs] & ->).
  rewrite !length_app in Hlen. cbn in Hlen. assert (Hl0 : length ps0 = length cs0) by lia.
  destruct (Hpt (length ps0) t c xs) as (Hbt & Hsz & Hnz).
  { rewrite lookup_app_r, Nat.sub_diag by lia. reflexivity. }
  { rewrite lookup_app_r, Hl0, Nat.sub_diag by lia. reflexivity. }
  assert (Hend : (ps0 ++ [t]) !! S (length ps0) = None)
    by (apply lookup_ge_None_2; rewrite length_app; cbn; lia).
  rewrite Hend in Hbt, Hsz.
  apply NoDup_app in Hnd as (Hnd0 & Hdis & _).
  assert (Ht0 : t ∉ ps0) by (intros Hin; apply (Hdis t Hin); left).
  destruct fuel as [|[|fuel]]; try lia.
  destruct (decide (c + length xs < N)) as [Hlt|Hge].
  - exists (with_heap w (<[t := mkbuf c (xs ++ [x]) None]> (heap w))). split.
    + cbn [tx_try_enqueue]. rewrite <- Ht, Hbt, try_enqueue_fits by assumption. reflexivity.
    + exists (ps0 ++ [t]), (cs0 ++ [(c, xs ++ [x])]). cbn [head tail heap rx_pos with_heap].
      split; [apply NoDup_app; split; [assumption|split; [assumption|apply NoDup_singleton]]|].
      split; [rewrite !length_app; cbn; lia|].
      split; [assumption|]. split; [rewrite last_snoc; congruence|].
      split; [|split].
      * intros i p c' xs' Hp Hc.
        destruct (decide (i < length ps0)) as [Hi|Hi].
        -- rewrite lookup_app_l in Hp by assumption.
           rewrite lookup_app_l in Hc by lia.
           destruct (Hpt i p c' xs') as (Hb & Hs & Hz).
           { rewrite lookup_app_l by assumption. assumption. }
           { rewrite lookup_app_l by lia. assumption. }
           assert (p <> t) by (intros ->; apply Ht0; eapply list_elem_of_lookup_2; eauto).
           rewrite lookup_insert_ne by congruence. auto.
        -- apply lookup_app_Some in Hp as [Hp|[_ Hp]]; [apply lookup_lt_Some in Hp; lia|].
           apply list_lookup_singleton_Some in Hp as [Hi0 <-].
           rewrite lookup_app_r in Hc by lia.
           replace (i - length cs0) with 0 in Hc by lia. inversion Hc; subst c' xs'.
           replace i with (length ps0) by lia. rewrite Hend, lookup_insert_eq.
           split; [reflexivity|]. rewrite length_app. cbn [length]. split; [lia|].
           intros Hi'. destruct (Hnz Hi') as [-> _]. split; [reflexivity|].
           intros Habs. apply app_nil in Habs as [_ ?]. discriminate.
      * destruct Hrx as (c0 & xs0 & Hc0 & Hr). destruct cs0 as [|c1 cs0].
        -- exists c, (xs ++ [x]). cbn in Hc0 |- *. inversion Hc0; subst. split; [reflexivity|assumption].
        -- exists c0, xs0. split; assumption.
      * rewrite Hq, !map_app, !concat_app. cbn. rewrite !app_nil_r, app_assoc. reflexivity.
  - assert (Hfull : c + length xs = N) by lia.
    set (h1 := <[t := {| entries := entries_of c xs; pos := S N; ref_count := 1%Z;
                          next := None |}]> (heap w)).
    set (np := al h1).
    assert (Hnp1 : h1 !! np = None) by apply al_fresh.
    assert (Hnpt : np <> t) by (intros E; rewrite E in Hnp1; unfold h1 in Hnp1;
                                 rewrite lookup_insert_eq in Hnp1; discriminate).
    assert (Hnp0 : np ∉ ps0).
    { intros Hin. apply list_elem_of_lookup_1 in Hin as [i Hi].
      assert (Hi' : i < length cs0) by (apply lookup_lt_Some in Hi; lia).
      destruct (lookup_lt_is_Some_2 cs0 i Hi') as [[ci xsi] Hci].
      destruct (Hpt i np ci xsi) as [Hb _].
      { rewrite lookup_app_l by (apply lookup_lt_Some in Hi; lia). assumption. }
      { rewrite lookup_app_l by lia. assumption. }
      unfold h1 in Hnp1. rewrite lookup_insert_ne in Hnp1 by congruence. congruence. }
    exists {| heap := <[np := mkbuf 0 [x] None]> (<[t := mkbuf c xs (Some np)]> (heap w));
              tail := np; head := head w; rx_pos := rx_pos w |}. split.
    + cbn [tx_try_enqueue]. rewrite <- Ht, Hbt, try_enqueue_full by assumption.
      cbv beta iota zeta. cbn [with_heap heap tail head rx_pos next allocate set_next add_ref fst snd].
      fold h1. fold np.
      rewrite lookup_insert_ne by congruence. unfold h1 at 1. rewrite lookup_insert_eq.
      cbv beta iota zeta. cbn [with_heap heap tail head rx_pos next allocate set_next add_ref fst snd ebind].
      simplify_map_eq. rewrite Nat.eqb_refl.
      cbv beta iota zeta. cbn [with_heap heap tail head rx_pos next allocate set_next add_ref fst snd ebind].
      simplify_map_eq. unfold with_heap. cbn [heap tail head rx_pos]. f_equal. f_equal.
      apply map_eq. intros k. unfold h1. rewrite !lookup_insert.
      repeat case_decide; subst; try congruence; reflexivity.
    + exists ((ps0 ++ [t]) ++ [np]), ((cs0 ++ [(c, xs)]) ++ [(0, [x])]).
      cbn [heap tail head rx_pos].
      assert (Htn : t <> np) by congruence.
      split.
      { apply NoDup_app. split; [apply NoDup_app; split; [assumption|split; [assumption|apply NoDup_singleton]]|].
        split; [|apply NoDup_singleton].
        intros y Hy Hy'. apply list_elem_of_singleton in Hy'. subst y.
        apply elem_of_app in Hy as [Hy|Hy]; [contradiction|].
        apply list_elem_of_singleton in Hy. congruence. }
      split; [rewrite !length_app; cbn; lia|].
      split; [rewrite lookup_app_l by (rewrite length_app; cbn; lia); assumption|].
      split; [rewrite last_snoc; reflexivity|].
      split; [|split].
      * intros i p c' xs' Hp Hc.
        destruct (decide (i < length ps0)) as [Hi|Hi].
        -- rewrite !lookup_app_l in Hp by (try rewrite length_app; cbn [length]; lia).
           rewrite !lookup_app_l in Hc by (try rewrite length_app; cbn [length]; lia).
           destruct (Hpt i p c' xs') as (Hb & Hs & Hz).
           { rewrite lookup_app_l by assumption. assumption. }
           { rewrite lookup_app_l by lia. assumption. }
           assert (p <> t) by (intros ->; apply Ht0; eapply list_elem_of_lookup_2; eauto).
           assert (p <> np) by (intros ->; apply Hnp0; eapply list_elem_of_lookup_2; eauto).
           rewrite (lookup_app_l (ps0 ++ [t])) by (rewrite length_app; cbn [length]; lia).
           rewrite !lookup_insert_ne by congruence. auto.
        -- destruct (decide (i = length ps0)) as [->|Hi'].
           ++ rewrite lookup_app_l, lookup_app_r, Nat.sub_diag in Hp by (try rewrite length_app; cbn [length]; lia).
              rewrite lookup_app_l, lookup_app_r, <- Hl0, Nat.sub_diag in Hc by (try rewrite length_app; cbn [length]; lia).
              cbn in Hp, Hc. inversion Hp; inversion Hc; subst p c' xs'.
              rewrite lookup_app_r by (rewrite length_app; cbn [length]; lia).
              rewrite length_app. cbn [length]. replace (S (length ps0) - (length ps0 + 1)) with 0 by lia.
              cbn. rewrite lookup_insert_ne, lookup_insert_eq by congruence.
              split; [reflexivity|]. split; [assumption|]. assumption.
           ++ assert (Hi2 : i = S (length ps0)).
              { apply lookup_lt_Some in Hp. rewrite !length_app in Hp. cbn in Hp. lia. }
              subst i.
              rewrite lookup_app_r in Hp by (rewrite length_app; cbn [length]; lia).
              rewrite lookup_app_r in Hc by (rewrite length_app; cbn [length]; lia).
              rewrite length_app in Hp, Hc. cbn [length] in Hp, Hc.
              replace (S (length ps0) - (length ps0 + 1)) with 0 in Hp by lia.
              replace (S (length ps0) - (length cs0 + 1)) with 0 in Hc by lia.
              cbn in Hp, Hc. inversion Hp; inversion Hc; subst p c' xs'.
              rewrite lookup_insert_eq.
              rewrite (lookup_ge_None_2 ((ps0 ++ [t]) ++ [np]))
                by (rewrite !length_app; cbn [length]; lia).
              split; [reflexivity|]. split; [cbv; lia|]. split; [reflexivity|discriminate].
      * destruct Hrx as (c0 & xs0 & Hc0 & Hr). exists c0, xs0. split; [|assumption].
        rewrite lookup_app_l by (rewrite length_app; cbn; lia). assumption.
      * rewrite Hq, !map_app, !concat_app. cbn. rewrite !app_nil_r. reflexivity.
Qed.


Lemma dequeue_ok (w : @World T) q fuel :
  Inv w q -> 2 <= fuel ->
  exists w', rx_try_dequeue fuel w = Done (w', fst (deq_spec q)) /\ Inv w' (snd (deq_spec q)).
Proof.
  intros (ps & cs & Hnd & Hlen & Hhd & Hlast & Hpt & Hrx & Hq) Hf.
  destruct ps as [|p0 ps']; [discriminate|].
  injection Hhd as Hp0.
  destruct cs as [|[c0 xs0] cs']; [cbn in Hlen; lia|].
  destruct Hrx as (c0' & xs0' & Hc0 & Hr). injection Hc0 as <- <-.
  destruct (Hpt 0 p0 c0 xs0 eq_refl eq_refl) as (Hb0 & Hs0 & _).
  cbn [lookup list_lookup] in Hb0, Hs0.
  apply NoDup_cons in Hnd as [Hp0n Hnd].
  assert (Hc0N : c0 + length xs0 <= N) by (destruct (ps' !! 0); lia).
  destruct fuel as [|[|fuel]]; try lia.
  unfold rx_try_dequeue. cbn [rx_loop]. rewrite <- Hp0, Hb0.
  cbn [entries mkbuf]. rewrite entries_length by assumption.
  destruct (N <? rx_pos w) eqn:Elt; [apply Nat.ltb_lt in Elt; lia|].
  rewrite drop_entries, first_set_consumed by lia.
  destruct xs0 as [|x xs0].
  - cbn [map app length]. rewrite first_set_default. cbn [next mkbuf].
    destruct ps' as [|p1 ps''].
    + exists w. destruct cs' as [|]; [|cbn in Hlen; lia].
      cbn in Hq. subst q. split; [reflexivity|].
      exists [p0], [(c0, [])]. cbn [heap tail head rx_pos].
      split; [apply NoDup_singleton|]. split; [reflexivity|].
      split; [cbn; congruence|]. split; [assumption|].
      split; [|split; [exists c0, []; split; [reflexivity|assumption]|reflexivity]].
      intros i p c xs Hp Hc. destruct i as [|i]; [|discriminate].
      cbn in Hp, Hc. inversion Hp; inversion Hc; subst. cbn. split; [assumption|]. split; [assumption|]. intros []; reflexivity.
    + cbn in Hs0. assert (c0 = N) by lia. subst c0.
      destruct cs' as [|[c1 xs1] cs'']; [cbn in Hlen; lia|].
      destruct (Hpt 1 p1 c1 xs1 eq_refl eq_refl) as (Hb1 & Hs1 & Hz1).
      destruct (Hz1 ltac:(lia)) as [-> Hxs1]. destruct xs1 as [|x xs1]; [congruence|].
      cbn [lookup list_lookup] in Hb1, Hs1.
      apply not_elem_of_cons in Hp0n as [Hp01 Hp0n].
      apply NoDup_cons in Hnd as [Hp1n Hnd].
      exists {| heap := <[p1 := mkbuf 1 xs1 (ps'' !! 0)]> (delete p0 (heap w));
                tail := tail w; head := p1; rx_pos := 0 |}.
      split.
      * cbv beta iota zeta. cbn [forallb entries_of replicate map app N].
        rewrite Nat.eqb_refl. cbn [andb Z.eqb ref_count mkbuf heap].
        cbn [lookup list_lookup]. cbn [state consumed Z.eqb Pos.eqb andb forallb N replicate Nat.sub length ebind heap tail head rx_pos]. cbn [rx_loop heap]. rewrite lookup_delete_ne by congruence. rewrite Hb1.
        cbn [entries mkbuf]. rewrite entries_length by (cbn in Hs1 |- *; destruct (ps'' !! 0); lia).
        cbn [Nat.ltb Nat.leb skipn]. unfold entries_of at 1. cbn [replicate app map first_set].
        cbn [skipn first_set Z.eqb Pos.eqb state written data]. rewrite Hq. cbn [map concat app deq_spec fst].
        cbn [snd app deq_spec fst Nat.add].
        change {| data := None; state := 3%Z |} with (@consumed T).
        rewrite entries_pop, take_entry. reflexivity.
      * exists (p1 :: ps''), ((1, xs1) :: cs''). cbn [heap tail head rx_pos].
        split; [constructor; assumption|]. split; [cbn in Hlen |- *; lia|].
        split; [reflexivity|]. split; [cbn in Hlast |- *; assumption|].
        split; [|split; [exists 1, xs1; split; [reflexivity|lia]|]].
        -- intros i p c xs Hp Hc. destruct i as [|i].
           ++ cbn in Hp, Hc. inversion Hp; inversion Hc; subst. cbn [lookup list_lookup].
              rewrite lookup_insert_eq. split; [reflexivity|].
              split; [destruct (ps'' !! 0); cbn in Hs1 |- *; lia|lia].
           ++ destruct (Hpt (S (S i)) p c xs Hp Hc) as (Hb & Hs & Hz).
              assert (p <> p1) by (intros ->; apply Hp1n; eapply list_elem_of_lookup_2; eauto).
              assert (p <> p0) by (intros ->; apply Hp0n; eapply list_elem_of_lookup_2; eauto).
              rewrite lookup_insert_ne, lookup_delete_ne by congruence.
              split; [exact Hb|]. split; [exact Hs|]. intros _. apply Hz. lia.
        -- rewrite Hq. reflexivity.
  - cbn [map app length]. replace (0 + (c0 - rx_pos w)) with (c0 - rx_pos w) by lia.
    cbn [first_set Z.eqb Pos.eqb state written data].
    exists {| heap := <[p0 := mkbuf (S c0) xs0 (ps' !! 0)]> (heap w);
              tail := tail w; head := head w;
              rx_pos := if Nat.eqb (rx_pos w) (c0 - rx_pos w) then S (rx_pos w) else rx_pos w |}.
    rewrite Hq. cbn [map concat app deq_spec fst snd].
    split.
    + cbn [data written andb]. replace (rx_pos w + (c0 - rx_pos w)) with c0 by lia.
      rewrite entries_pop, take_entry. rewrite <- Hp0. reflexivity.
    + exists (p0 :: ps'), ((S c0, xs0) :: cs'). cbn [heap tail head rx_pos].
      split; [constructor; assumption|]. split; [assumption|].
      split; [cbn; congruence|]. split; [assumption|].
      split; [|split; [exists (S c0), xs0; split; [reflexivity|destruct (_ =? _); lia]|reflexivity]].
      intros i p c xs Hp Hc. destruct i as [|i].
      * cbn in Hp, Hc. inversion Hp; inversion Hc; subst. cbn [lookup list_lookup].
        rewrite lookup_insert_eq. split; [reflexivity|].
        split; [destruct (ps' !! 0); cbn in Hs0 |- *; lia|lia].
      * destruct (Hpt (S i) p c xs Hp Hc) as (Hb & Hs & Hz).
        assert (p <> p0) by (intros ->; apply Hp0n; eapply list_elem_of_lookup_2; eauto).
        rewrite lookup_insert_ne by congruence. auto.
Qed.

Lemma run_ok (w : @World T) q ops fuel :
  Inv w q -> 2 <= fuel -> exists w', run al fuel w ops = Done (w', fifo_spec q ops).
Proof.
  revert w q. induction ops as [|[x|] ops IH]; intros w q Hi Hf; cbn [run fifo_spec].
  - eauto.
  - destruct (enqueue_ok w q x fuel Hi Hf) as (w1 & E & Hi1). rewrite E. cbn [ebind]. eauto.
  - destruct (dequeue_ok w q fuel Hi Hf) as (w1 & E & Hi1). rewrite E. cbn [ebind].
    destruct (IH w1 _ Hi1 Hf) as (w2 & E2). rewrite E2. cbn [ebind].
    exists w2. destruct q; reflexivity.
Qed.

End F.
End QueueFacts.

(* ------------------------------------------------------------------ *)
(** ** Packet claims *)

Module PacketClaims.
Import Codec Packet Wire CodecFacts ListFacts PacketFacts Samples.







(** C10.  Byte 0 of every serialized frame is [VERSION] and byte 255 is 0,
    whatever the packet's [protocol_version]; [deserialize] gives the same
    result whatever byte 255 of its input holds. *)
Theorem packet_version_crc :
  (forall p buf, serialize p = Ret buf ->
     buf !! 0 = Some VERSION /\ buf !! 255 = Some 0%Z) /\
  (forall (b : list Z) (x : Z), deserialize (<[255 := x]> b) = deserialize b).
Proof. split; [exact serialize_version_crc | exact deserialize_ignores_crc]. Qed.

Lemma packet_version_crc_witness :
  exists buf, serialize p_v7 = Ret buf /\ buf !! 0 = Some VERSION /\ buf !! 255 = Some 0%Z.
Proof.
  eexists. split; [vm_compute; reflexivity|].
  apply (proj1 packet_version_crc p_v7). vm_compute. reflexivity.
Defined.

End PacketClaims.

(* ------------------------------------------------------------------ *)
(** ** Protocol role claims *)

Module RoleClaims.
Import Codec Packet Wire CodecFacts PacketFacts Roles RolesFacts Samples.

(** C2 (divergence).  When [Extension::init] answers an [InitProbe] sent
    to [Everyone] while selected, on a port whose writes never fail (every
    call returns [Ok] or [WouldBlock]), the byte loop never ends: however
    many [write] calls are allowed, the pass is still inside the write loop
    of the first frame byte and only copies of that byte (0) have been
    sent.  The loop has no [break] on [Ok], unlike the one in
    [read_blocking]; the reply frame is never completed and the read loop
    is never resumed. *)
Theorem init_probe_reply_stalls fuel dev packet s :
  data packet = InitProbe -> receiver packet = Everyone ->
  (forall j, dev j <> WOther) ->
  exists n c, init_iteration fuel dev true packet s =
    Ret (IRunning {| calls := c; sent := sent s ++ replicate n 0%Z |}).
Proof.
  intros Hd Hr Hdev. unfold init_iteration. rewrite Hr, Hd. simpl orb. cbv iota.
  set (resp := {| protocol_version := VERSION; receiver := Controller;
                  data := InitProbeResponse false None |}).
  destruct (serialize resp) as [frame|] eqn:Hs; [|vm_compute in Hs; discriminate].
  assert (Hf : exists tl, frame = 0%Z :: tl).
  { vm_compute in Hs. injection Hs as <-. eexists. reflexivity. }
  destruct Hf as [tl ->]. simpl.
  destruct (write_bytes_looping_spins fuel dev 0%Z tl s Hdev) as (n & c & Hw).
  exists n, c. simpl in Hw. by rewrite Hw.
Qed.


Lemma init_probe_reply_stalls_witness :
  exists n c, init_iteration 5 (fun _ => WOk) true init_probe {| calls := 0; sent := [] |} =
    Ret (IRunning {| calls := c; sent := [] ++ replicate n 0%Z |}).
Proof. apply (init_probe_reply_stalls 5 (fun _ => WOk) init_probe {| calls := 0; sent := [] |}); done. Defined.


(** C7 (divergence).  In [Controller::init], a slot that is not ready is
    recorded as [{ id: idx as u8, initialized: false }] with no write; for a
    ready slot the probe's byte loop never ends on a port whose writes
    never fail, whatever the extension would answer: only copies of the
    first frame byte are sent and no entry is recorded. *)
Theorem controller_slot_stalls fuel dev idx response s :
  controller_slot fuel dev false idx response s =
    Ret (SEntry {| ce_id := as_u8 idx; initialized := false |} s) /\
  ((forall j, dev j <> WOther) ->
   exists n c, controller_slot fuel dev true idx response s =
     Ret (SRunning {| calls := c; sent := sent s ++ replicate n 0%Z |})).
Proof.
  split; [reflexivity|]. intros Hdev. unfold controller_slot. simpl negb. cbv iota.
  destruct (serialize init_probe) as [frame|] eqn:Hs; [|vm_compute in Hs; discriminate].
  assert (Hf : exists tl, frame = 0%Z :: tl).
  { vm_compute in Hs. injection Hs as <-. eexists. reflexivity. }
  destruct Hf as [tl ->]. simpl.
  destruct (write_bytes_looping_spins fuel dev 0%Z tl s Hdev) as (n & c & Hw).
  exists n, c. simpl in Hw. by rewrite Hw.
Qed.

Lemma controller_slot_stalls_witness :
  exists n c, controller_slot 5 (fun _ => WOk) true 2 Panic {| calls := 0; sent := [] |} =
    Ret (SRunning {| calls := c; sent := [] ++ replicate n 0%Z |}).
Proof. apply (controller_slot_stalls 5 (fun _ => WOk) 2 Panic {| calls := 0; sent := [] |}); done. Defined.


(** C5 (code bug).  One pass of [Extension::run] panics on protocol
    errors: a frame that fails to decode panics on the [unwrap] of the
    decode result (where [init] maps the same failure to an error), and an
    accepted frame carrying [Init], [InitProbeResponse], [Acknowledge],
    [Error], [MetricsResponse] or [ConfigureOptionsResponse], which the
    code's own comment says are ignored and answered with an error, panics
    in [todo!("Send Error Response")].  Only [InitProbe], [Restart],
    [Configure], [Metrics] and [ConfigureOptions] are handled without
    panic, when the metrics and option lists fit a frame. *)
Theorem run_iteration_outcomes self_id selected ms cos buffer :
  ((exists e, deserialize buffer = Ret (Err e)) ->
     run_iteration self_id selected ms cos buffer = Panic) /\
  (forall pkt, deserialize buffer = Ret (Ok pkt) ->
     match receiver pkt with
     | Everyone => selected = true
     | ID id => id = self_id
     | Controller => False
     end ->
     match data pkt with
     | Init _ | InitProbeResponse _ _ | Acknowledge | Error
     | MetricsResponse _ | ConfigureOptionsResponse _ =>
         run_iteration self_id selected ms cos buffer = Panic
     | _ =>
         payload_ok (MetricsResponse (Fixed ms 0)) ->
         payload_ok (ConfigureOptionsResponse (Fixed cos 0)) ->
         exists st, run_iteration self_id selected ms cos buffer = Ret st
     end).
Proof.
  split.
  - intros [e He]. unfold run_iteration. by rewrite He.
  - intros pkt Hd Hacc. unfold run_iteration. rewrite Hd, obind_ret. cbv beta iota zeta.
    assert (Ha : match receiver pkt with
                 | Everyone => selected | ID id => (id =? self_id)%Z | Controller => false
                 end = true).
    { destruct (receiver pkt); try done. by apply Z.eqb_eq. }
    rewrite Ha. simpl negb. cbv iota.
    destruct (data pkt) as [| | | | | |option| |metrics| |options]; try done; intros Hm Hc.
    + rewrite serialize_ok by (repeat split; simpl; lia || done). by eexists.
    + by eexists.
    + rewrite serialize_ok by (repeat split; simpl; lia || done). by eexists.
    + rewrite serialize_ok by (split; [reflexivity|]; split; [exact I|]; exact Hm). by eexists.
    + rewrite serialize_ok by (split; [reflexivity|]; split; [exact I|]; exact Hc). by eexists.
Qed.

Lemma run_iteration_outcomes_witness :
  run_iteration 3 false [] [] frame_unknown = Panic /\
  run_iteration 3 false [] [] frame_ack3 = Panic /\
  exists st, run_iteration 3 false [dp_a] [] frame_metrics3 = Ret st.
Proof.
  split; [|split].
  - apply (proj1 (run_iteration_outcomes 3 false [] [] frame_unknown)).
    eexists. vm_compute. reflexivity.
  - apply (proj2 (run_iteration_outcomes 3 false [] [] frame_ack3) (ack (ID 3))).
    + vm_compute. reflexivity.
    + reflexivity.
  - destruct (run_iteration_outcomes 3 false [dp_a] [] frame_metrics3) as [_ H].
    apply (H p_metrics3).
    + vm_compute. reflexivity.
    + reflexivity.
    + split; [split; [repeat constructor; simpl; lia | simpl; lia] | simpl; lia].
    + split; [split; [constructor | simpl; lia] | simpl; lia].
Defined.

End RoleClaims.

(* ------------------------------------------------------------------ *)
(** ** Timer claims *)

Module TimerClaims.
Import Codec Timer TimerFacts TimerSamples.

(** C3 (amended).  For [1 <= t <= 31] and a fresh level-one wheel at any
    position [c], the first poll of a [t]-tick sleep registers the timer
    and returns [Pending]; after each of the first [t - 1] ticks nothing is
    woken and a poll still returns [Pending]; the [t]-th tick wakes the
    waker exactly once, and the next poll returns [Ready(Ok(()))].  A sleep
    of [t >= 32] ticks is refused by [add_ms] with [OutOfRange], leaving
    the wheel as it is, and its first poll returns [Ready(Err(()))]. *)
Theorem sleep_wakes_on_tick t c w :
  (0 <= c < 2 ^ 64)%Z ->
  (1 <= t <= 31 ->
   exists fut wd1,
    poll {| handle := None; time := t |} w (fresh c) = Done (Pending, fut, wd1) /\
    woken wd1 = [] /\
    (forall k, k < t -> exists wdk, ticks k wd1 = Done wdk /\ woken wdk = [] /\
        poll fut w wdk = Done (Pending, fut, wdk)) /\
    (exists wdt, ticks t wd1 = Done wdt /\ woken wdt = [w] /\
        poll fut w wdt = Done (Ready (Ok tt), fut, wdt))) /\
  (32 <= t ->
   add_ms t w (fresh c) = Done (Err OutOfRange, fresh c) /\
   poll {| handle := None; time := t |} w (fresh c) =
     Done (Ready (Err tt), {| handle := None; time := t |}, fresh c)).
Proof.
  intros Hc. split.
  2: { intros Ht. destruct t as [|t']; [lia|].
       unfold poll, add_ms, add_step. simpl handle. simpl time.
       rewrite decide_True by lia. split; reflexivity. }
  intros Ht.
  set (b := bucket c t 0). pose proof (bucket_lt c t 0) as Hb. fold b in Hb.
  set (reg := {| state := 2; waker := Some w; fired := false |}).
  set (sl := <[b := 0%Z]> (replicate 32 (-1)%Z)).
  set (st := {| wakers := <[0 := reg]> (replicate 32 empty_slot); used_slots := 1 |}).
  exists {| handle := Some (Registered 0); time := t |},
         {| wheel := {| current := c; slots := sl |}; storage := st; woken := [] |}.
  split.
  { unfold poll. simpl. destruct t as [|t']; [lia|]. unfold add_ms, add_step.
    rewrite decide_False by lia. unfold add_waker. cbn -[replicate probe find_free].
    rewrite find_free_fresh. cbn -[replicate probe].
    rewrite probe_hit by (apply lookup_replicate_2; exact Hb). reflexivity. }
  split; [reflexivity|].
  assert (Hmiss : forall j, j + 1 < t ->
            sl !! Z.to_nat ((c + Z.of_nat j + 1) mod 32) = Some (-1)%Z).
  { intros j Hj. unfold sl. rewrite list_lookup_insert_ne.
    - apply lookup_replicate_2.
      pose proof (Z.mod_pos_bound (c + Z.of_nat j + 1) 32 ltac:(lia)). lia.
    - unfold b, bucket. Z.div_mod_to_equations. nia. }
  split.
  - intros k Hk. eexists. split.
    + apply ticks_miss; [done|]. intros j Hj. apply Hmiss. lia.
    + split; reflexivity.
  - rewrite (ticks_last t) by lia.
    rewrite ticks_miss by (done || intros j Hj; apply Hmiss; lia). simpl.
    unfold tick. simpl current. simpl slots.
    assert (Hi : Z.to_nat ((usize_wrap (c + Z.of_nat (t - 1)) + 1) mod 32) = b).
    { rewrite wrap_mod32. unfold b, bucket. f_equal. f_equal. lia. }
    rewrite Hi. unfold sl at 1. rewrite list_lookup_insert_eq by (rewrite length_replicate; lia).
    simpl. eexists. split; [reflexivity|]. split; reflexivity.
Qed.

Lemma sleep_wakes_on_tick_witness :
  sleep_ms 10 250 = {| handle := None; time := 25 |} /\
  (exists fut wd1,
    poll {| handle := None; time := 25 |} 7 (fresh 0) = Done (Pending, fut, wd1) /\
    woken wd1 = [] /\
    (forall k, k < 25 -> exists wdk, ticks k wd1 = Done wdk /\ woken wdk = [] /\
        poll fut 7 wdk = Done (Pending, fut, wdk)) /\
    (exists wdt, ticks 25 wd1 = Done wdt /\ woken wdt = [7] /\
        poll fut 7 wdt = Done (Ready (Ok tt), fut, wdt))) /\
  sleep_ms 10 400 = {| handle := None; time := 40 |} /\
  add_ms 40 7 (fresh 3) = Done (Err OutOfRange, fresh 3) /\
  poll {| handle := None; time := 40 |} 7 (fresh 3) =
    Done (Ready (Err tt), {| handle := None; time := 40 |}, fresh 3).
Proof.
  split; [reflexivity|]. split.
  - apply (proj1 (sleep_wakes_on_tick 25 0 7 ltac:(lia))). lia.
  - split; [reflexivity|]. apply (proj2 (sleep_wakes_on_tick 40 3 7 ltac:(lia))). lia.
Defined.

(** C3 counterexample: a sleep of 32 ticks (the wheel width) is refused
    with [OutOfRange]; its first poll returns [Ready(Err(()))]. *)
Lemma sleep_wakes_on_tick_counterexample :
  poll (sleep_ms 1 32) 7 (fresh 0) = Done (Ready (Err tt), sleep_ms 1 32, fresh 0).
Proof. vm_compute. reflexivity. Qed.

(** C4 (amended).  [add_ms(time, waker)] on a level-one wheel (no scaling
    happens in [add_ms]): [time = 0] wakes the waker once and returns
    [Fired]; [time >= 32] returns [OutOfRange] and changes nothing; for
    [1 <= time <= 31], [Full] with nothing changed when all 32 waker slots
    are counted in use; otherwise, with [idx] the first free waker slot,
    [Full] when the 31 probed buckets [(current + time + i) % 32], [i < 31],
    are all occupied, and else [Registered(idx)], the waker stored in slot
    [idx] and [idx] put in the first free probed bucket; no waker is woken
    in these cases. *)
Theorem add_ms_outcomes time w wd :
  length (slots (wheel wd)) = 32 ->
  (time = 0 -> add_ms time w wd =
     Done (Ok Fired, {| wheel := wheel wd; storage := storage wd; woken := woken wd ++ [w] |})) /\
  (32 <= time -> add_ms time w wd = Done (Err OutOfRange, wd)) /\
  (1 <= time <= 31 -> (32 <= used_slots (storage wd))%Z ->
     add_ms time w wd = Done (Err Full, wd)) /\
  (1 <= time <= 31 -> (used_slots (storage wd) < 32)%Z ->
   forall idx, find_free (wakers (storage wd)) 0 = Some idx ->
   ((forall i, i < 31 -> slots (wheel wd) !! bucket (current (wheel wd)) time i <> Some (-1)%Z) ->
      exists wd', add_ms time w wd = Done (Err Full, wd') /\ woken wd' = woken wd) /\
   ((exists i, i < 31 /\ slots (wheel wd) !! bucket (current (wheel wd)) time i = Some (-1)%Z) ->
      exists i wd', i < 31 /\
        slots (wheel wd) !! bucket (current (wheel wd)) time i = Some (-1)%Z /\
        (forall j, j < i -> slots (wheel wd) !! bucket (current (wheel wd)) time j <> Some (-1)%Z) /\
        add_ms time w wd = Done (Ok (Registered idx), wd') /\
        woken wd' = woken wd /\
        slots (wheel wd') = <[bucket (current (wheel wd)) time i := Z.of_nat idx]> (slots (wheel wd)) /\
        wakers (storage wd') !! idx = Some {| state := 2; waker := Some w; fired := false |})).
Proof.
  intros Hl. destruct wd as [[cur sl] [ws used] lg]; simpl in *.
  split; [by intros ->|]. split.
  { intros H. destruct time as [|time']; [lia|]. unfold add_ms, add_step.
    by rewrite decide_True by lia. }
  split.
  { intros H Hu. destruct time as [|time']; [lia|]. unfold add_ms, add_step.
    rewrite decide_False by lia. unfold add_waker. simpl.
    destruct (Z.leb_spec 32 used); [done|lia]. }
  intros H Hu idx Hf. destruct time as [|time']; [lia|].
  unfold add_ms, add_step. rewrite decide_False by lia. unfold add_waker. cbn -[probe].
  destruct (Z.leb_spec 32 used); [lia|]. rewrite Hf. cbn -[probe].
  split.
  - intros Hall. rewrite probe_none by (done || intros j Hj; apply Hall; lia).
    simpl. by eexists.
  - intros Hex. destruct (probe_first 31 0 cur (S time') idx sl Hl) as (k & Hk & Hks & Hbefore & Hp).
    { destruct Hex as (i & Hi & Hs). exists i. split; [lia|done]. }
    rewrite Hp. simpl. exists k. eexists. split; [lia|]. split; [done|].
    split; [intros j Hj; apply Hbefore; lia|]. split; [reflexivity|].
    split; [done|]. split; [done|].
    simpl. apply list_lookup_insert_eq. apply find_free_lt in Hf. lia.
Qed.

Lemma add_ms_outcomes_witness :
  add_ms 40 7 (fresh 0) = Done (Err OutOfRange, fresh 0) /\
  (exists wd', add_ms 5 7 (fresh 0) = Done (Ok (Registered 0), wd') /\
     slots (wheel wd') = <[5 := 0%Z]> (replicate 32 (-1)%Z)) /\
  (exists wd', add_ms 1 99 filled31 = Done (Err Full, wd') /\ woken wd' = woken filled31).
Proof.
  split; [|split].
  - exact (proj1 (proj2 (add_ms_outcomes 40 7 (fresh 0) eq_refl)) ltac:(lia)).
  - destruct (proj2 (proj2 (proj2 (add_ms_outcomes 5 7 (fresh 0) eq_refl)))
                ltac:(lia) ltac:(vm_compute; reflexivity) 0 find_free_fresh) as [_ Hreg].
    destruct Hreg as (i & wd' & Hi & _ & Hfirst & Hadd & _ & Hsl & _).
    { exists 0. split; [lia|]. vm_compute. reflexivity. }
    exists wd'. split; [exact Hadd|]. rewrite Hsl.
    destruct i as [|i]; [reflexivity|].
    exfalso. apply (Hfirst 0); [lia|]. vm_compute. reflexivity.
  - destruct (proj2 (proj2 (proj2 (add_ms_outcomes 1 99 filled31 ltac:(vm_compute; reflexivity))))
                ltac:(lia) ltac:(vm_compute; reflexivity) 31 ltac:(vm_compute; reflexivity))
      as [Hfull _].
    apply Hfull. intros i Hi.
    do 31 (destruct i as [|i]; [vm_compute; discriminate|]). lia.
Defined.

(** C4 counterexample: after timers of 1..31 ticks on a fresh wheel, 31 of
    the 32 waker slots are in use and slot 31 is free, yet [add_ms(1, _)]
    returns [Full]: the buckets it probes are all occupied. *)
Lemma add_ms_counterexample :
  exists wd wd', fill 31 (fresh 0) = Done wd /\
    used_slots (storage wd) = 31%Z /\
    find_free (wakers (storage wd)) 0 = Some 31 /\
    add_ms 1 99 wd = Done (Err Full, wd').
Proof.
  eexists. eexists. split; [vm_compute; reflexivity|].
  split; [vm_compute; reflexivity|]. split; [vm_compute; reflexivity|].
  vm_compute. reflexivity.
Qed.

End TimerClaims.

(** ** The runtime and the queue *)

Module ExecutorClaims.
Import Executor ExecutorInv ExecutorFacts ExecutorSamples.

End ExecutorClaims.

Module QueueClaims.
Import Timer(exec, Done, Crash, Spin, ebind).
Import Queue QueueInv QueueFacts QueueSamples.
(** C9: with any allocator handing out unused addresses and the producer
    and the consumer running one call at a time, every sequence of
    [try_enqueue] and [try_dequeue] calls on a fresh [queue] returns, from
    the [try_dequeue] calls, exactly what a first-in first-out queue
    returns: the items in the order they were enqueued, and [Err(Empty)]
    when no enqueued item is left.  Two rounds of each loop suffice. *)
Theorem queue_fifo {T : Type} (alloc_addr : gmap nat (@Buffer T) -> nat)
    (alloc_fresh : forall h, h !! alloc_addr h = None)
    (h0 : gmap nat Buffer) (fuel : nat) (Hfuel : 2 <= fuel) (ops : list (Op T)) :
  exists w, run alloc_addr fuel (queue alloc_addr h0) ops = Done (w, fifo_spec [] ops).
Proof. apply run_ok; [exact alloc_fresh|apply queue_inv|exact Hfuel]. Qed.

Lemma queue_fifo_witness :
  (forall h, h !! sample_alloc h = None) /\ 2 <= 2 /\
  exists w, run sample_alloc 2 (queue sample_alloc ∅) sample_ops = Done (w, fifo_spec [] sample_ops).
Proof.
  assert (Hf : forall h, h !! sample_alloc h = None).
  { intros h. apply not_elem_of_dom. exact (is_fresh (dom h)). }
  split; [exact Hf|]. split; [lia|].
  apply (queue_fifo sample_alloc Hf ∅ 2). lia.
Defined.
End QueueClaims.

(* ================================================================== *)
(** * Further properties of the code *)

Module CodecExtras.
Import Codec Packet Wire CodecFacts ListFacts.

Lemma str_deserialize_suffix b s r :
  str_deserialize b = Ret (Ok (s, r)) -> exists k, k <= length b /\ r = drop k b.
Proof.
  unfold str_deserialize. destruct (idx b 0) as [len|]; [|discriminate]. simpl.
  destruct (slice b 1 (Z.to_nat len + 1)) as [v|] eqn:Hs; [|discriminate]. simpl.
  unfold slice in Hs. destruct (decide _) as [[_ Hle]|]; [|discriminate].
  destruct (utf8_valid v); [|discriminate]. intros [= _ <-].
  exists (1 + Z.to_nat len). split; [lia|done].
Qed.

Lemma DataPoint_deserialize_suffix b x r :
  DataPoint_deserialize b = Ret (Ok (x, r)) -> exists k, k <= length b /\ r = drop k b.
Proof.
  unfold DataPoint_deserialize.
  destruct (str_deserialize b) as [[[name rest]|]|] eqn:Hs; simpl; try discriminate.
  destruct (str_deserialize_suffix _ _ _ Hs) as (k & Hk & ->).
  destruct (slice (drop k b) 0 2) as [two|] eqn:Hsl; [|discriminate]. simpl.
  unfold slice in Hsl. destruct (decide _) as [[_ Hle]|]; [|discriminate].
  destruct (Value_deserialize two) as [[v|]|]; simpl; try discriminate.
  intros [= _ <-]. rewrite length_drop in Hle. exists (k + 2). split; [lia|].
  by rewrite drop_drop.
Qed.

Lemma ConfigOption_deserialize_suffix b x r :
  ConfigOption_deserialize b = Ret (Ok (x, r)) -> exists k, k <= length b /\ r = drop k b.
Proof.
  unfold ConfigOption_deserialize.
  destruct (str_deserialize b) as [[[name rest]|]|] eqn:Hs; simpl; try discriminate.
  destruct (str_deserialize_suffix _ _ _ Hs) as (k & Hk & ->).
  destruct (idx (drop k b) 0) as [t|] eqn:Hi; [|discriminate]. simpl.
  unfold idx in Hi. destruct (drop k b !! 0) eqn:E; [|discriminate].
  apply lookup_lt_Some in E. rewrite length_drop in E.
  destruct (_ : outcome ValueType) as [ty|]; simpl; [|discriminate].
  intros [= _ <-]. exists (k + 1). split; [lia|]. by rewrite drop_drop.
Qed.

Section Reser.
Context {T : Type} `{Sendable T}.
Hypothesis de_suffix : forall b x r, Codec.deserialize b = Ret (Ok (x, r)) ->
  exists k, k <= length b /\ r = drop k b.

Lemma deserialize_items_suffix n b k k' r :
  deserialize_items n b k = Ret (Ok (k', r)) -> exists j, k' = k + j /\ j <= length b /\ r = drop j b.
Proof.
  revert b k. induction n as [|n IH]; intros b k; simpl.
  - intros [= <- <-]. exists 0. split; [lia|]. split; [lia|]. by rewrite drop_0.
  - destruct (Codec.deserialize b) as [[[x tmp]|err]|] eqn:Hd; simpl; try discriminate.
    destruct (de_suffix _ _ _ Hd) as (j1 & Hj1 & ->).
    intros Hn. destruct (IH _ _ Hn) as (j2 & -> & Hj2 & ->).
    rewrite length_drop in *. exists (j1 + j2).
    split; [lia|]. split; [lia|]. by rewrite drop_drop.
Qed.

Lemma OptionsIter_reserialize_gen (b0 : Z) tail (it : OptionsIter T) rest :
  (0 <= b0 <= 255)%Z ->
  OptionsIter_deserialize (b0 :: tail) = Ret (Ok (it, rest)) ->
  exists pre, b0 :: tail = pre ++ rest /\ OptionsIter_length it = Z.to_nat b0 /\
    forall buf, length pre <= length buf ->
      OptionsIter_serialize it buf = Ret (Ok (pre, drop (length pre) buf)).
Proof.
  intros Hb. unfold OptionsIter_deserialize.
  destruct (deserialize_items _ _ _) as [[[len r]|e]|] eqn:Hd; simpl; try discriminate.
  destruct (deserialize_items_suffix _ _ _ _ _ Hd) as (j & -> & Hj & ->).
  rewrite slice_ok by (simpl; lia). simpl. rewrite Nat.sub_0_r, drop_0.
  intros [= <- <-]. exists (b0 :: take j tail). split; [by rewrite <- app_comm_cons, take_drop|].
  split; [reflexivity|]. intros buf Hl. destruct buf as [|c buf]; [simpl in Hl; lia|].
  assert (Hj2 : length (take j tail) = j) by (rewrite length_take; lia). simpl in Hl |- *. rewrite Hj2 in *. rewrite decide_True by lia.
  unfold as_u8. rewrite Z2Nat.id, Z.mod_small by lia. rewrite Nat.add_1_r. reflexivity.
Qed.
End Reser.

(** X6. Deserializing an [OptionsIter] of data points or of config options
    from a buffer whose first byte is the count consumes a prefix [pre] of
    the buffer; the result's [length()] is that count, and serializing it
    again into any buffer of at least [length pre] bytes writes back exactly
    [pre] and returns the rest of that buffer. *)
Theorem OptionsIter_reserialize :
  (forall (b0 : Z) tail (it : OptionsIter DataPoint) rest,
     (0 <= b0 <= 255)%Z ->
     OptionsIter_deserialize (b0 :: tail) = Ret (Ok (it, rest)) ->
     exists pre, b0 :: tail = pre ++ rest /\ OptionsIter_length it = Z.to_nat b0 /\
       forall buf, length pre <= length buf ->
         OptionsIter_serialize it buf = Ret (Ok (pre, drop (length pre) buf))) /\
  (forall (b0 : Z) tail (it : OptionsIter ConfigOption) rest,
     (0 <= b0 <= 255)%Z ->
     OptionsIter_deserialize (b0 :: tail) = Ret (Ok (it, rest)) ->
     exists pre, b0 :: tail = pre ++ rest /\ OptionsIter_length it = Z.to_nat b0 /\
       forall buf, length pre <= length buf ->
         OptionsIter_serialize it buf = Ret (Ok (pre, drop (length pre) buf))).
Proof.
  split; intros; eapply OptionsIter_reserialize_gen; eauto.
  - exact DataPoint_deserialize_suffix.
  - exact ConfigOption_deserialize_suffix.
Qed.

(** X1. [<&str as Sendable>::serialize] of a valid UTF-8 string of at most
    255 bytes fails with [Err(())] on a buffer shorter than its length plus
    one; on a longer buffer it succeeds, splitting the buffer into the
    written part and the rest, and deserializing the result gives the string
    back together with that rest. *)
Theorem str_codec (s : str) (buffer : list Z) :
  utf8_valid s = true -> length s <= 255 ->
  (length buffer < length s + 1 -> str_serialize s buffer = Ret (Err tt)) /\
  (length s + 1 <= length buffer ->
     exists pre rest, str_serialize s buffer = Ret (Ok (pre, rest)) /\
       length pre + length rest = length buffer /\
       str_deserialize (pre ++ rest) = Ret (Ok (s, rest))).
Proof.
  intros Hu Hl. split.
  - intros Hb. unfold str_serialize. by rewrite decide_True.
  - intros Hb. rewrite str_serialize_ok by lia. do 2 eexists. split; [reflexivity|].
    split.
    + rewrite length_drop. unfold enc_str. simpl. lia.
    + by apply str_deserialize_ok.
Qed.

Lemma str_codec_witness :
  utf8_valid [104; 105]%Z = true /\ length [104; 105]%Z <= 255 /\
  exists pre rest, str_serialize [104; 105]%Z (replicate 4 0%Z) = Ret (Ok (pre, rest)) /\
    length pre + length rest = length (replicate 4 0%Z) /\
    str_deserialize (pre ++ rest) = Ret (Ok ([104; 105]%Z, rest)).
Proof.
  split; [reflexivity|]. split; [simpl; lia|].
  apply (str_codec [104; 105]%Z (replicate 4 0%Z) eq_refl ltac:(simpl; lia)). simpl. lia.
Defined.

(** X3. [Value::deserialize] inverts [Value::serialize]; a tag byte 0 reads
    as a switch that is on exactly when the value byte is 1, and a tag byte
    other than 0 and 1 gives [Err(UnknownType)]. *)
Theorem Value_codec (v : Value) (t b : Z) (rest : list Z) :
  Value_deserialize (Value_serialize v ++ rest) = Ret (Ok v) /\
  Value_deserialize (0%Z :: b :: rest) = Ret (Ok (Switch (b =? 1)%Z)) /\
  ((t <> 0)%Z -> (t <> 1)%Z -> Value_deserialize (t :: b :: rest) = Ret (Err (UnknownType t))).
Proof.
  split; [by destruct v as [[]|]|]. split; [reflexivity|].
  intros H0 H1. unfold Value_deserialize, idx. simpl.
  by rewrite (proj2 (Z.eqb_neq _ _) H0), (proj2 (Z.eqb_neq _ _) H1).
Qed.

(** X4. [<DataPoint as Sendable>::serialize] of a data point with a valid
    name of at most 255 bytes fails with [Err(())] exactly when the buffer is
    shorter than the name's length plus 3; otherwise it succeeds and
    [deserialize] of the result gives the data point back with the rest of
    the buffer. *)
Theorem DataPoint_codec (dp : DataPoint) (buffer : list Z) :
  utf8_valid (dp_name dp) = true -> length (dp_name dp) <= 255 ->
  (length buffer < length (dp_name dp) + 3 -> DataPoint_serialize dp buffer = Ret (Err tt)) /\
  (length (dp_name dp) + 3 <= length buffer ->
     exists pre rest, DataPoint_serialize dp buffer = Ret (Ok (pre, rest)) /\
       length pre + length rest = length buffer /\
       DataPoint_deserialize (pre ++ rest) = Ret (Ok (dp, rest))).
Proof.
  intros Hu Hl. split.
  - intros Hb. unfold DataPoint_serialize, str_serialize.
    destruct (decide (length buffer < length (dp_name dp) + 1)); [reflexivity|]. simpl.
    rewrite decide_True by (rewrite length_drop; lia). reflexivity.
  - intros Hb. rewrite DataPoint_serialize_ok by (done || rewrite PacketFacts.enc_dp_length; lia).
    do 2 eexists. split; [reflexivity|]. split.
    + rewrite length_drop, PacketFacts.enc_dp_length in *. lia.
    + by apply DataPoint_deserialize_ok.
Qed.

(** X5. [<ConfigOption as Sendable>::serialize] of an option with a valid
    name of at most 255 bytes fails with [Err(())] on a buffer shorter than
    the name's length plus 1, panics (index out of bounds on the type byte)
    on a buffer of exactly that length, and otherwise succeeds with a result
    that [deserialize] reads back; [deserialize] panics on a type byte other
    than 0 and 1. *)
Theorem ConfigOption_codec (co : ConfigOption) (buffer : list Z) (t : Z) (rest : list Z) :
  utf8_valid (co_name co) = true -> length (co_name co) <= 255 ->
  (length buffer < length (co_name co) + 1 -> ConfigOption_serialize co buffer = Ret (Err tt)) /\
  (length buffer = length (co_name co) + 1 -> ConfigOption_serialize co buffer = Panic) /\
  (length (co_name co) + 2 <= length buffer ->
     exists pre rest, ConfigOption_serialize co buffer = Ret (Ok (pre, rest)) /\
       length pre + length rest = length buffer /\
       ConfigOption_deserialize (pre ++ rest) = Ret (Ok (co, rest))) /\
  ((t <> 0)%Z -> (t <> 1)%Z ->
     ConfigOption_deserialize (enc_str (co_name co) ++ t :: rest) = Panic).
Proof.
  intros Hu Hl. split; [|split; [|split]].
  - intros Hb. unfold ConfigOption_serialize, str_serialize. by rewrite decide_True.
  - intros Hb. unfold ConfigOption_serialize, str_serialize.
    rewrite decide_False by lia. simpl. unfold set.
    rewrite decide_False by (rewrite length_drop; lia). reflexivity.
  - intros Hb. rewrite ConfigOption_serialize_ok by (done || unfold enc_co, enc_str; rewrite length_app; simpl; lia).
    do 2 eexists. split; [reflexivity|]. split.
    + rewrite length_drop. unfold enc_co, enc_str in *. rewrite length_app in *. simpl in *. lia.
    + by apply ConfigOption_deserialize_ok.
  - intros H0 H1. unfold ConfigOption_deserialize.
    rewrite str_deserialize_ok by (split; done). simpl. unfold idx. simpl.
    by rewrite (proj2 (Z.eqb_neq _ _) H0), (proj2 (Z.eqb_neq _ _) H1).
Qed.

Lemma DataPoint_codec_witness :
  (length (replicate 6 0%Z) < length (dp_name Samples.dp_a) + 3 ->
     DataPoint_serialize Samples.dp_a (replicate 6 0%Z) = Ret (Err tt)) /\
  (length (dp_name Samples.dp_a) + 3 <= length (replicate 6 0%Z) ->
     exists pre rest, DataPoint_serialize Samples.dp_a (replicate 6 0%Z) = Ret (Ok (pre, rest)) /\
       length pre + length rest = length (replicate 6 0%Z) /\
       DataPoint_deserialize (pre ++ rest) = Ret (Ok (Samples.dp_a, rest))).
Proof. apply (DataPoint_codec Samples.dp_a (replicate 6 0%Z)); [reflexivity | simpl; lia]. Defined.

Lemma ConfigOption_codec_witness :
  let co := {| co_name := [97%Z]; co_ty := TPwm |} in
  (length (replicate 3 0%Z) < length (co_name co) + 1 -> ConfigOption_serialize co (replicate 3 0%Z) = Ret (Err tt)) /\
  (length (replicate 3 0%Z) = length (co_name co) + 1 -> ConfigOption_serialize co (replicate 3 0%Z) = Panic) /\
  (length (co_name co) + 2 <= length (replicate 3 0%Z) ->
     exists pre rest, ConfigOption_serialize co (replicate 3 0%Z) = Ret (Ok (pre, rest)) /\
       length pre + length rest = length (replicate 3 0%Z) /\
       ConfigOption_deserialize (pre ++ rest) = Ret (Ok (co, rest))) /\
  ((2 <> 0)%Z -> (2 <> 1)%Z ->
     ConfigOption_deserialize (enc_str (co_name co) ++ 2%Z :: []) = Panic).
Proof.
  intros co. apply (ConfigOption_codec co (replicate 3 0%Z) 2%Z []); [reflexivity | simpl; lia].
Defined.

End CodecExtras.

Module PacketExtras.
Import Codec Packet Wire CodecFacts PacketFacts.

Lemma read_entry_ok fuel dev k w r :
  w < fuel -> (forall j, j < w -> dev (k + j) = RWouldBlock) -> dev (k + w) = r ->
  r <> RWouldBlock ->
  read_entry fuel dev k = match r with RByte b => Got b (k + w + 1) | _ => Failed (k + w + 1) end.
Proof.
  revert fuel k. induction w as [|w IH]; intros fuel k Hf Hw Hb Hr;
    destruct fuel as [|fuel]; try lia; simpl.
  - rewrite Nat.add_0_r in Hb. rewrite Hb. destruct r; try done; f_equal; lia.
  - assert (H0 : dev k = RWouldBlock) by (rewrite <- (Nat.add_0_r k); apply Hw; lia).
    rewrite H0. rewrite (IH fuel (S k)); try lia.
    + destruct r; try done; f_equal; lia.
    + intros j Hj. replace (S k + j) with (k + S j) by lia. apply Hw. lia.
    + replace (S k + w) with (k + S w) by lia. done.
    + done.
Qed.

Lemma agrees_app dev k l1 l2 :
  agrees dev k (l1 ++ l2) -> agrees dev k l1 /\ agrees dev (k + length l1) l2.
Proof.
  intros H. split.
  - intros j a Hj. apply H. by apply lookup_app_l_Some.
  - intros j a Hj. rewrite <- Nat.add_assoc. apply H. rewrite lookup_app_r by lia.
    by replace (length l1 + j - length l1) with j by lia.
Qed.

Lemma agrees_entry dev k w r l :
  agrees dev k (replicate w RWouldBlock ++ r :: l) ->
  (forall j, j < w -> dev (k + j) = RWouldBlock) /\ dev (k + w) = r.
Proof.
  intros H. split.
  - intros j Hj. apply H. rewrite lookup_app_l by (rewrite length_replicate; lia).
    by apply lookup_replicate_2.
  - apply H. rewrite lookup_app_r by (rewrite length_replicate; lia).
    by rewrite length_replicate, Nat.sub_diag.
Qed.

Lemma read_entries_ok waits frame fuel dev k :
  length waits = length frame -> Forall (fun w => w < fuel) waits ->
  agrees dev k (answers waits frame) ->
  read_entries (length frame) fuel dev k = Filled frame (k + length (answers waits frame)).
Proof.
  revert waits k. induction frame as [|b bs IH]; intros [|w ws] k Hl Hf Ha; simpl in *; try lia.
  - f_equal; lia.
  - inversion Hf; subst.
    destruct (agrees_entry dev k w (RByte b) (answers ws bs) Ha) as [Hw Hb].
    rewrite (read_entry_ok fuel dev k w (RByte b)) by done.
    apply agrees_app in Ha as [_ Ha]. rewrite length_replicate in Ha.
    assert (Ha' : agrees dev (k + w + 1) (answers ws bs)).
    { intros j a Hj. replace (k + w + 1 + j) with (k + w + S j) by lia. apply (Ha (S j)). done. }
    rewrite (IH ws (k + w + 1)) by (done || lia).
    rewrite length_app, length_replicate. simpl. f_equal. lia.
Qed.

Lemma read_entries_fail n waits pre w fuel dev k :
  length waits = length pre -> Forall (fun w => w < fuel) waits -> length pre < n -> w < fuel ->
  agrees dev k (answers waits pre ++ replicate w RWouldBlock ++ [ROther]) ->
  read_entries n fuel dev k = FillFailed (k + length (answers waits pre) + w + 1).
Proof.
  revert n waits k. induction pre as [|b bs IH]; intros n [|v vs] k Hl Hf Hn Hw Ha; simpl in *; try lia.
  - destruct n as [|n]; [lia|]. simpl.
    destruct (agrees_entry dev k w ROther [] Ha) as [Hw' Hb].
    rewrite (read_entry_ok fuel dev k w ROther) by done. f_equal. lia.
  - destruct n as [|n]; [lia|]. simpl. inversion Hf; subst.
    rewrite <- app_assoc in Ha. simpl in Ha.
    destruct (agrees_entry dev k v (RByte b) _ Ha) as [Hw' Hb].
    rewrite (read_entry_ok fuel dev k v (RByte b)) by done.
    apply agrees_app in Ha as [_ Ha]. rewrite length_replicate in Ha.
    assert (Ha' : agrees dev (k + v + 1) (answers vs bs ++ replicate w RWouldBlock ++ [ROther])).
    { intros j a Hj. replace (k + v + 1 + j) with (k + v + S j) by lia. apply (Ha (S j)). done. }
    rewrite (IH n vs (k + v + 1)) by (done || lia).
    f_equal. rewrite length_app, length_replicate. simpl. lia.
Qed.

Lemma agrees_port l : agrees (port l) 0 l.
Proof. intros j a Hj. unfold port. simpl. by rewrite Hj. Qed.

(** X7. The receiver byte conversions: reading a byte into a [ReceiverID]
    and writing it back gives the byte again, for every byte; the other way
    round every receiver comes back except [ID 0] (read as [Controller])
    and [ID 255] (read as [Everyone]). *)
Theorem ReceiverID_bytes (b : Z) (r : ReceiverID) :
  u8_of_ReceiverID (ReceiverID_of_u8 b) = b /\
  (ReceiverID_of_u8 (u8_of_ReceiverID r) = r <-> r <> ID 0 /\ r <> ID 255).
Proof.
  split.
  - unfold ReceiverID_of_u8. destruct (Z.eqb_spec b 0); [by subst|].
    destruct (Z.eqb_spec b 255); [by subst|]. done.
  - destruct r as [| |n]; simpl; [done|done|]. unfold ReceiverID_of_u8.
    destruct (Z.eqb_spec n 0); [subst; split; [done|intros [H _]; done]|].
    destruct (Z.eqb_spec n 255); [subst; split; [done|intros [_ H]; done]|].
    split; [|done]. intros _. split; intros [=]; lia.
Qed.

(** X8. [Packet::read_blocking] on a port that delivers the 256 bytes that
    [Packet::serialize] produced for a well-formed packet, each after fewer
    [WouldBlock] answers than the loop's call budget, returns the packet in
    its wire form, after exactly one [read] call per answer. *)
Theorem read_blocking_serialized (fuel : nat) (waits : list nat) (p : Packet) :
  packet_ok p -> length waits = 256 -> Forall (fun w => w < fuel) waits ->
  exists frame, serialize p = Ret frame /\
    read_blocking fuel (port (answers waits frame)) 0
    = Ret (ReadReturned (Ok (wire_form p)) (length (answers waits frame))).
Proof.
  intros Hp Hl Hf. eexists. split; [by apply serialize_ok|].
  set (frame := [0%Z; u8_of_ReceiverID (receiver p)] ++ payload_bytes (data p) ++
                replicate (253 - length (payload_bytes (data p))) 0%Z ++ [0%Z]).
  assert (Hfl : length frame = 256).
  { destruct Hp as (_ & _ & _ & Hlen). unfold frame.
    rewrite !length_app, length_replicate. simpl. lia. }
  unfold read_blocking. rewrite <- Hfl.
  rewrite (read_entries_ok waits frame fuel) by (try lia; done || apply agrees_port).
  unfold frame. rewrite deserialize_frame by done. done.
Qed.

(** X9. A [read] error aborts [Packet::read_blocking] at once: if the port
    delivers fewer than 256 bytes (each after fewer [WouldBlock] answers
    than the call budget) and then, after more [WouldBlock] answers, an
    error, the result is [Err(SerialRead)] right after that failing call. *)
Theorem read_blocking_read_error (fuel : nat) (waits : list nat) (pre : list Z) (w : nat) :
  length waits = length pre -> length pre < 256 ->
  Forall (fun w => w < fuel) waits -> w < fuel ->
  read_blocking fuel (port (answers waits pre ++ replicate w RWouldBlock ++ [ROther])) 0
  = Ret (ReadReturned (Err SerialRead) (length (answers waits pre) + w + 1)).
Proof.
  intros Hl Hn Hf Hw. unfold read_blocking.
  by rewrite (read_entries_fail 256 waits pre w fuel) by (done || apply agrees_port).
Qed.

Lemma read_blocking_serialized_witness :
  exists frame, serialize Samples.p_metrics3 = Ret frame /\
    read_blocking 1 (port (answers (replicate 256 0) frame)) 0
    = Ret (ReadReturned (Ok (wire_form Samples.p_metrics3)) (length (answers (replicate 256 0) frame))).
Proof.
  apply (read_blocking_serialized 1 (replicate 256 0) Samples.p_metrics3).
  - repeat split; simpl; lia.
  - by rewrite length_replicate.
  - apply Forall_replicate. lia.
Defined.

Lemma read_blocking_read_error_witness :
  read_blocking 2 (port (answers [1] [7%Z] ++ replicate 1 RWouldBlock ++ [ROther])) 0
  = Ret (ReadReturned (Err SerialRead) (length (answers [1] [7%Z]) + 1 + 1)).
Proof.
  apply (read_blocking_read_error 2 [1] [7%Z] 1); simpl; try lia. repeat constructor.
Defined.

End PacketExtras.

Module RolesExtras.
Import Codec Packet Wire Roles CodecFacts PacketFacts.

Lemma write_bytes_once_ok dev bytes s :
  (forall j, calls s <= j -> dev j = WOk) ->
  write_bytes_once dev bytes s = Finished {| calls := calls s + length bytes; sent := sent s ++ bytes |}.
Proof.
  revert s. induction bytes as [|b bs IH]; intros s Hd; simpl.
  - rewrite Nat.add_0_r, app_nil_r. by destruct s.
  - unfold write_call. rewrite Hd by lia. rewrite IH by (simpl; intros j Hj; apply Hd; lia).
    simpl. rewrite <- app_assoc. do 2 f_equal. lia.
Qed.

Lemma receiver_eqb_everyone r : receiver_eqb r Everyone = true <-> r = Everyone.
Proof. destruct r; simpl; split; congruence. Qed.

Lemma serialize_frame_length p frame : packet_ok p -> serialize p = Ret frame -> length frame = 256.
Proof.
  intros Hp Hs. rewrite serialize_ok in Hs by done. injection Hs as Hf. rewrite <- Hf.
  destruct Hp as (_ & _ & _ & Hlen). revert Hlen.
  generalize (payload_bytes (data p)) (u8_of_ReceiverID (receiver p)). intros pb r Hlen.
  simpl. rewrite !length_app, length_replicate. simpl. lia.
Qed.

Lemma ack_ok : packet_ok (ack Controller).
Proof. repeat split; simpl; lia. Qed.

(** X10. One pass of the loop of [Extension::init]: a packet that arrives
    while the extension is not selected, or that is not sent to [Everyone],
    is skipped with nothing written; a selected [Init id] is acknowledged to
    the controller with one [write] call per byte of the 256-byte
    [Acknowledge] frame and ends the loop with [id], while a [write] that
    does not return [Ok] (even [WouldBlock]) at the first byte makes [init]
    return the write error; any payload but [InitProbe] or [Init] panics. *)
Theorem init_iteration_steps fuel dev selected packet s :
  (selected = false \/ receiver packet <> Everyone ->
     init_iteration fuel dev selected packet s = Ret (IContinue s)) /\
  (selected = true -> receiver packet = Everyone ->
     (forall id, data packet = Init id ->
        ((forall j, calls s <= j -> dev j = WOk) ->
           exists frame, serialize (ack Controller) = Ret frame /\ length frame = 256 /\
             init_iteration fuel dev selected packet s
             = Ret (IBreak id {| calls := calls s + 256; sent := sent s ++ frame |})) /\
        (dev (calls s) <> WOk ->
           init_iteration fuel dev selected packet s
           = Ret (IWriteError {| calls := S (calls s); sent := sent s |}))) /\
     (match data packet with InitProbe | Init _ => False | _ => True end ->
        init_iteration fuel dev selected packet s = Panic)).
Proof.
  split.
  - intros H. unfold init_iteration. destruct H as [-> | H]; [done|].
    destruct (receiver_eqb (receiver packet) Everyone) eqn:E.
    + by apply receiver_eqb_everyone in E.
    + by rewrite orb_true_r.
  - intros -> Hr. unfold init_iteration.
    assert (E : receiver_eqb (receiver packet) Everyone = true) by by apply receiver_eqb_everyone.
    rewrite E. cbn [negb orb]. split.
    + intros id ->. split.
      * intros Hd. pose proof (serialize_ok _ ack_ok) as Hs.
        eexists. split; [exact Hs|]. split; [exact (serialize_frame_length _ _ ack_ok Hs)|].
        rewrite Hs, obind_ret, write_bytes_once_ok by done.
        rewrite (serialize_frame_length _ _ ack_ok Hs). done.
      * intros Hd. rewrite (serialize_ok _ ack_ok), obind_ret. cbn [app write_bytes_once].
        unfold write_call. by destruct (dev (calls s)).
    + by destruct (data packet).
Qed.

(** X11. One pass of the loop of [Extension::run], on a frame that decodes
    to a packet: a packet not addressed to this extension (to the
    controller, to another id, or to [Everyone] while not selected) is
    skipped; one addressed to it is answered, to the controller, by a frame
    that decodes to the [InitProbeResponse] carrying its id for
    [InitProbe] and to [Acknowledge] for [Configure] (which is applied);
    for [Metrics] (resp. [ConfigureOptions]), when every name is valid
    UTF-8 of at most 255 bytes, the list has at most 255 items and its
    encoding takes at most 251 bytes, by a [MetricsResponse] (resp.
    [ConfigureOptionsResponse]) list yielding exactly the metrics (resp.
    the option table); [Restart] returns and the response packets panic. *)
Theorem run_iteration_replies (self_id : Z) (selected : bool) (ms : list DataPoint)
    (cos : list ConfigOption) (buffer : list Z) (pkt : Packet) :
  deserialize buffer = Ret (Ok pkt) ->
  (match receiver pkt with Everyone => selected = false | ID id => id <> self_id | Controller => True end ->
     run_iteration self_id selected ms cos buffer = Ret RContinue) /\
  (match receiver pkt with Everyone => selected = true | ID id => id = self_id | Controller => False end ->
     (data pkt = InitProbe ->
        exists frame, run_iteration self_id selected ms cos buffer = Ret (RWrite frame) /\
          deserialize frame = Ret (Ok {| protocol_version := 0; receiver := Controller;
                                         data := InitProbeResponse true (Some self_id) |})) /\
     (data pkt = Restart -> run_iteration self_id selected ms cos buffer = Ret RReturn) /\
     (forall opt, data pkt = Configure opt ->
        exists frame, run_iteration self_id selected ms cos buffer = Ret (RConfigure opt frame) /\
          deserialize frame = Ret (Ok (ack Controller))) /\
     (data pkt = Metrics -> Forall dp_ok ms -> length ms <= 255 ->
        length (concat (map enc_dp ms)) <= 251 ->
        exists frame it, run_iteration self_id selected ms cos buffer = Ret (RWrite frame) /\
          deserialize frame = Ret (Ok {| protocol_version := 0; receiver := Controller;
                                         data := MetricsResponse it |}) /\
          collect it = Ret ms) /\
     (data pkt = ConfigureOptions -> Forall co_ok cos -> length cos <= 255 ->
        length (concat (map enc_co cos)) <= 251 ->
        exists frame it, run_iteration self_id selected ms cos buffer = Ret (RWrite frame) /\
          deserialize frame = Ret (Ok {| protocol_version := 0; receiver := Controller;
                                         data := ConfigureOptionsResponse it |}) /\
          collect it = Ret cos) /\
     (match data pkt with
      | Init _ | InitProbeResponse _ _ | Acknowledge | Error
      | MetricsResponse _ | ConfigureOptionsResponse _ => True
      | _ => False end ->
        run_iteration self_id selected ms cos buffer = Panic)).
Proof.
  intros Hd. unfold run_iteration. rewrite Hd, obind_ret. split.
  - intros Hn. destruct (receiver pkt) as [| |id].
    + done.
    + by subst.
    + destruct (Z.eqb_spec id self_id); [done|]. done.
  - intros Ha.
    assert (Hacc : match receiver pkt with Everyone => selected | ID id => (id =? self_id)%Z
                   | Controller => false end = true).
    { destruct (receiver pkt) as [| |id]; [done|done|]. by apply Z.eqb_eq. }
    rewrite Hacc. cbn [negb].
    split; [|split; [|split; [|split; [|split]]]].
    + intros ->.
      set (q := {| protocol_version := 0; receiver := Controller;
                   data := InitProbeResponse true (Some self_id) |}).
      assert (Hq : packet_ok q) by (repeat split; simpl; try done; lia).
      eexists. split; [change VERSION with 0%Z; fold q; by rewrite (serialize_ok q Hq)|].
      rewrite (deserialize_frame q Hq). done.
    + by intros ->.
    + intros opt ->. eexists. split; [by rewrite (serialize_ok _ ack_ok)|].
      rewrite (deserialize_frame _ ack_ok). done.
    + intros -> Hw Hn Hl.
      set (q := {| protocol_version := 0; receiver := Controller;
                   data := MetricsResponse (Fixed ms 0) |}).
      assert (Hq : packet_ok q).
      { repeat split; simpl; try done; lia. }
      exists ([0%Z; u8_of_ReceiverID (receiver q)] ++ payload_bytes (data q) ++
               replicate (253 - length (payload_bytes (data q))) 0%Z ++ [0%Z]).
      exists (wire_iter enc_dp (Fixed ms 0)).
      split; [change VERSION with 0%Z; fold q; by rewrite (serialize_ok q Hq)|].
      split; [by rewrite (deserialize_frame q Hq)|].
      rewrite (@ListFacts.collect_wire_iter _ DataPoint_Sendable enc_dp dp_ok
                 DataPoint_deserialize_ok (Fixed ms 0)) by (split; done). done.
    + intros -> Hw Hn Hl.
      set (q := {| protocol_version := 0; receiver := Controller;
                   data := ConfigureOptionsResponse (Fixed cos 0) |}).
      assert (Hq : packet_ok q).
      { repeat split; simpl; try done; lia. }
      exists ([0%Z; u8_of_ReceiverID (receiver q)] ++ payload_bytes (data q) ++
               replicate (253 - length (payload_bytes (data q))) 0%Z ++ [0%Z]).
      exists (wire_iter enc_co (Fixed cos 0)).
      split; [change VERSION with 0%Z; fold q; by rewrite (serialize_ok q Hq)|].
      split; [by rewrite (deserialize_frame q Hq)|].
      rewrite (@ListFacts.collect_wire_iter _ ConfigOption_Sendable enc_co co_ok
                 ConfigOption_deserialize_ok (Fixed cos 0)) by (split; done). done.
    + by destruct (data pkt).
Qed.

Lemma run_iteration_replies_witness :
  let pkt := {| protocol_version := 0; receiver := ID 3; data := Metrics |} in
  (match receiver pkt with Everyone => false = false | ID id => id <> 3%Z | Controller => True end ->
     run_iteration 3 false [Samples.dp_a] [] Samples.frame_metrics3 = Ret RContinue) /\
  (match receiver pkt with Everyone => false = true | ID id => id = 3%Z | Controller => False end ->
     (data pkt = InitProbe ->
        exists frame, run_iteration 3 false [Samples.dp_a] [] Samples.frame_metrics3 = Ret (RWrite frame) /\
          deserialize frame = Ret (Ok {| protocol_version := 0; receiver := Controller;
                                         data := InitProbeResponse true (Some 3%Z) |})) /\
     (data pkt = Restart -> run_iteration 3 false [Samples.dp_a] [] Samples.frame_metrics3 = Ret RReturn) /\
     (forall opt, data pkt = Configure opt ->
        exists frame, run_iteration 3 false [Samples.dp_a] [] Samples.frame_metrics3 = Ret (RConfigure opt frame) /\
          deserialize frame = Ret (Ok (ack Controller))) /\
     (data pkt = Metrics -> Forall dp_ok [Samples.dp_a] -> length [Samples.dp_a] <= 255 ->
        length (concat (map enc_dp [Samples.dp_a])) <= 251 ->
        exists frame it, run_iteration 3 false [Samples.dp_a] [] Samples.frame_metrics3 = Ret (RWrite frame) /\
          deserialize frame = Ret (Ok {| protocol_version := 0; receiver := Controller;
                                         data := MetricsResponse it |}) /\
          collect it = Ret [Samples.dp_a]) /\
     (data pkt = ConfigureOptions -> Forall co_ok [] -> length (@nil ConfigOption) <= 255 ->
        length (concat (map enc_co [])) <= 251 ->
        exists frame it, run_iteration 3 false [Samples.dp_a] [] Samples.frame_metrics3 = Ret (RWrite frame) /\
          deserialize frame = Ret (Ok {| protocol_version := 0; receiver := Controller;
                                         data := ConfigureOptionsResponse it |}) /\
          collect it = Ret []) /\
     (match data pkt with
      | Init _ | InitProbeResponse _ _ | Acknowledge | Error
      | MetricsResponse _ | ConfigureOptionsResponse _ => True
      | _ => False end ->
        run_iteration 3 false [Samples.dp_a] [] Samples.frame_metrics3 = Panic)).
Proof.
  intros pkt. apply (run_iteration_replies 3 false [Samples.dp_a] [] Samples.frame_metrics3 pkt).
  vm_compute. reflexivity.
Defined.

End RolesExtras.

Module TimerExtras.
Import Codec Timer TimerFacts.

Lemma poll_register c sl ws u t w lg :
  1 <= t <= 31 -> (0 <= u < 32)%Z -> find_free ws 0 = Some 0 ->
  sl !! bucket c t 0 = Some (-1)%Z ->
  poll {| handle := None; time := t |} w
    {| wheel := {| current := c; slots := sl |}; storage := {| wakers := ws; used_slots := u |};
       woken := lg |}
  = Done (Pending, {| handle := Some (Registered 0); time := t |},
          {| wheel := {| current := c; slots := <[bucket c t 0 := 0%Z]> sl |};
             storage := {| wakers := <[0 := {| state := 2; waker := Some w; fired := false |}]> ws;
                           used_slots := u + 1 |};
             woken := lg |}).
Proof.
  intros Ht Hu Hf Hb. unfold poll. cbn -[probe find_free]. destruct t as [|t']; [lia|].
  unfold add_ms, add_step. rewrite decide_False by lia. unfold add_waker. cbn -[probe find_free].
  rewrite (proj2 (Z.leb_gt 32 u)) by lia. rewrite Hf. cbn -[probe].
  rewrite probe_hit by exact Hb. reflexivity.
Qed.

Lemma miss_bucket c j tb :
  j + 1 < tb -> tb <= 31 -> Z.to_nat ((c + Z.of_nat j + 1) mod 32) <> bucket c tb 0.
Proof. intros H1 H2. unfold bucket. Z.div_mod_to_equations. nia. Qed.

Lemma idx_lt c j : Z.to_nat ((c + Z.of_nat j + 1) mod 32) < 32.
Proof. pose proof (Z.mod_pos_bound (c + Z.of_nat j + 1) 32 ltac:(lia)). lia. Qed.

Lemma last_bucket c t :
  1 <= t -> Z.to_nat ((usize_wrap (c + Z.of_nat (t - 1)) + 1) mod 32) = bucket c t 0.
Proof. intros Ht. rewrite wrap_mod32. unfold bucket. f_equal. f_equal. lia. Qed.

Lemma wrap_last c t :
  1 <= t -> usize_wrap (usize_wrap (c + Z.of_nat (t - 1)) + 1) = usize_wrap (c + Z.of_nat t).
Proof. intros Ht. unfold usize_wrap. rewrite Z.add_mod_idemp_l by lia. f_equal. lia. Qed.

(** X12. [ScaleGeneral<N>::scale_ms] rounds up: for a positive tick length
    [N], [scale_ms N time] ticks last at least [time] ms and less than one
    tick more, so it is the least such number of ticks. *)
Theorem scale_ms_ceiling (N time : nat) :
  0 < N -> time <= N * scale_ms N time < time + N /\
  (forall k, time <= N * k -> scale_ms N time <= k).
Proof.
  intros HN. unfold scale_ms.
  pose proof (Nat.div_mod time N ltac:(lia)) as Hd. pose proof (Nat.mod_upper_bound time N ltac:(lia)).
  destruct (decide (time mod N = 0)) as [E|E].
  - split; [lia|]. intros k Hk.
    destruct (decide (time / N <= k)); [done|]. exfalso. assert (k + 1 <= time / N) by lia. nia.
  - split; [lia|]. intros k Hk.
    destruct (decide (time / N + 1 <= k)); [done|]. exfalso.
    assert (k <= time / N) by lia. nia.
Qed.

(** X13. [SlotStorage::take_slot] hands a waker out at most once per
    registration: an index out of range, or a slot not in the registered
    state 2, gives [None] and leaves the storage as it was; on a slot in
    state 2 it returns the slot's waker ([None] when the cell is empty, the
    [take()?] path) and afterwards the same slot gives [None]; in no case
    does it change [used_slots]. *)
Theorem take_slot_once (st : SlotStorage) (index : nat) :
  (length (wakers st) <= index -> take_slot st index = (None, st)) /\
  (forall s, wakers st !! index = Some s -> state s <> 2%Z -> take_slot st index = (None, st)) /\
  (forall s, wakers st !! index = Some s -> state s = 2%Z ->
     fst (take_slot st index) = waker s /\
     take_slot (snd (take_slot st index)) index = (None, snd (take_slot st index))) /\
  used_slots (snd (take_slot st index)) = used_slots st.
Proof.
  unfold take_slot. split; [|split; [|split]].
  - intros H. by rewrite lookup_ge_None_2.
  - intros s -> Hs. by rewrite (proj2 (Z.eqb_neq _ _) Hs).
  - intros s E Hs. rewrite E, Hs. simpl. split; [done|].
    rewrite list_lookup_insert_eq by (eapply lookup_lt_Some; eauto). done.
  - destruct (wakers st !! index) as [s|]; [|done].
    by destruct (negb (state s =? 2)%Z).
Qed.

(** X14. A sleep of [t] ticks ([1 <= t <= 31]) registered on a fresh wheel,
    woken by the [t]-th tick and then dropped leaves the wheel as a fresh
    one [t] ticks further on: every bucket empty, every slot free, no slot
    counted as used; only the wake-up call remains. *)
Theorem sleep_fire_drop_restores t c w :
  1 <= t <= 31 -> (0 <= c < 2 ^ 64)%Z ->
  exists fut wd1 wdt,
    poll {| handle := None; time := t |} w (fresh c) = Done (Pending, fut, wd1) /\
    ticks t wd1 = Done wdt /\
    drop_handle (handle fut) wdt =
      {| wheel := wheel (fresh (usize_wrap (c + Z.of_nat t))); storage := storage (fresh 0);
         woken := [w] |}.
Proof.
  intros Ht Hc. do 3 eexists. split.
  { unfold fresh. apply poll_register; try done; try lia.
    apply lookup_replicate_2. apply bucket_lt. }
  split.
  - rewrite (ticks_last t) by lia.
    rewrite ticks_miss.
    2: done.
    2: { intros j Hj. rewrite list_lookup_insert_ne by (apply not_eq_sym, miss_bucket; lia).
         apply lookup_replicate_2. apply idx_lt. }
    cbn [ebind]. unfold tick. cbn [current slots wheel].
    rewrite last_bucket by lia.
    rewrite list_lookup_insert_eq by (rewrite length_replicate; apply bucket_lt).
    cbn -[replicate]. reflexivity.
  - unfold drop_handle, fresh. cbn -[replicate]. rewrite wrap_last by lia.
    rewrite list_insert_insert, decide_True by done.
    rewrite list_insert_id by (apply lookup_replicate_2, bucket_lt).
    reflexivity.
Qed.

(** X15. On a fresh wheel holding a single sleep of [t] ticks
    ([1 <= t <= 31]), dropping the sleep before it fires frees its slot but
    leaves its bucket set: the ticks before the bucket comes round run as
    usual, and the tick that reaches it, the slot not having been reused,
    finds it no longer in the registered state and panics on
    [take_slot(..).unwrap()]. *)
Theorem sleep_drop_before_fire t c w :
  1 <= t <= 31 -> (0 <= c < 2 ^ 64)%Z ->
  exists fut wd1,
    poll {| handle := None; time := t |} w (fresh c) = Done (Pending, fut, wd1) /\
    (forall k, k < t -> exists wdk, ticks k (drop_handle (handle fut) wd1) = Done wdk) /\
    ticks t (drop_handle (handle fut) wd1) = Crash.
Proof.
  intros Ht Hc. do 2 eexists. split.
  { unfold fresh. apply poll_register; try done; try lia.
    apply lookup_replicate_2. apply bucket_lt. }
  unfold drop_handle. cbn [handle wheel storage woken wakers used_slots].
  set (ws := match _ with Some s => _ | None => _ end).
  set (u := usize_wrap _).
  assert (Hmiss : forall j, j + 1 < t ->
            (<[bucket c t 0:=0%Z]> (replicate 32 (-1)%Z)) !! Z.to_nat ((c + Z.of_nat j + 1) mod 32)
            = Some (-1)%Z).
  { intros j Hj. rewrite list_lookup_insert_ne by (apply not_eq_sym, miss_bucket; lia).
    apply lookup_replicate_2. apply idx_lt. }
  split.
  - intros k Hk. eexists. apply ticks_miss; [done|]. intros j Hj. apply Hmiss. lia.
  - rewrite (ticks_last t) by lia.
    rewrite ticks_miss by (done || intros j Hj; apply Hmiss; lia).
    cbn [ebind]. unfold tick. cbn [current slots wheel storage].
    rewrite last_bucket by lia.
    rewrite list_lookup_insert_eq by (rewrite length_replicate; apply bucket_lt).
    cbn -[replicate ws]. unfold ws. reflexivity.
Qed.

(** X16. A dropped sleep's stale bucket wakes whoever reuses its slot: after
    a [t]-tick sleep is registered on a fresh wheel and dropped, a second
    sleep of [t'] ticks with [t < t' <= 31] gets the same slot, and is woken
    and completes after only [t] ticks. *)
Theorem dropped_sleep_wakes_reuser t t' c w w' :
  1 <= t < t' -> t' <= 31 -> (0 <= c < 2 ^ 64)%Z ->
  exists futA wd1 futB wd2 wdt,
    poll {| handle := None; time := t |} w (fresh c) = Done (Pending, futA, wd1) /\
    poll {| handle := None; time := t' |} w' (drop_handle (handle futA) wd1)
      = Done (Pending, futB, wd2) /\
    ticks t wd2 = Done wdt /\ woken wdt = [w'] /\
    poll futB w' wdt = Done (Ready (Ok tt), futB, wdt).
Proof.
  intros Ht Ht' Hc.
  assert (HAB : bucket c t 0 <> bucket c t' 0).
  { unfold bucket. Z.div_mod_to_equations. nia. }
  do 5 eexists. split.
  { unfold fresh. apply poll_register; try done; try lia.
    apply lookup_replicate_2. apply bucket_lt. }
  split.
  { unfold drop_handle. cbn [handle wheel storage woken wakers used_slots].
    apply poll_register; try lia.
    - unfold usize_wrap. rewrite Z.mod_small; lia.
    - reflexivity.
    - rewrite list_lookup_insert_ne by done. apply lookup_replicate_2, bucket_lt. }
  set (ws := <[0:= _]> _).
  set (sl := <[bucket c t' 0:=0%Z]> (<[bucket c t 0:=0%Z]> (replicate 32 (-1)%Z))).
  assert (Hmiss : forall j, j + 1 < t -> sl !! Z.to_nat ((c + Z.of_nat j + 1) mod 32) = Some (-1)%Z).
  { intros j Hj. unfold sl.
    rewrite list_lookup_insert_ne by (apply not_eq_sym, miss_bucket; lia).
    rewrite list_lookup_insert_ne by (apply not_eq_sym, miss_bucket; lia).
    apply lookup_replicate_2. apply idx_lt. }
  split.
  - rewrite (ticks_last t) by lia.
    rewrite ticks_miss by (done || intros j Hj; apply Hmiss; lia).
    cbn [ebind]. unfold tick. cbn [current slots wheel storage].
    rewrite last_bucket by lia. unfold sl.
    rewrite list_lookup_insert_ne by done.
    rewrite list_lookup_insert_eq by (rewrite length_replicate; apply bucket_lt).
    cbn -[replicate ws]. unfold ws. reflexivity.
  - split; reflexivity.
Qed.

Lemma scale_ms_ceiling_witness :
  250 <= 10 * scale_ms 10 250 < 250 + 10 /\ (forall k, 250 <= 10 * k -> scale_ms 10 250 <= k).
Proof. apply (scale_ms_ceiling 10 250). lia. Defined.

Lemma sleep_fire_drop_restores_witness :
  exists fut wd1 wdt,
    poll {| handle := None; time := 25 |} 7 (fresh 20) = Done (Pending, fut, wd1) /\
    ticks 25 wd1 = Done wdt /\
    drop_handle (handle fut) wdt =
      {| wheel := wheel (fresh (usize_wrap (20 + Z.of_nat 25))); storage := storage (fresh 0);
         woken := [7] |}.
Proof. apply (sleep_fire_drop_restores 25 20 7); lia. Defined.

Lemma sleep_drop_before_fire_witness :
  exists fut wd1,
    poll {| handle := None; time := 3 |} 7 (fresh 0) = Done (Pending, fut, wd1) /\
    (forall k, k < 3 -> exists wdk, ticks k (drop_handle (handle fut) wd1) = Done wdk) /\
    ticks 3 (drop_handle (handle fut) wd1) = Crash.
Proof. apply (sleep_drop_before_fire 3 0 7); lia. Defined.

Lemma dropped_sleep_wakes_reuser_witness :
  exists futA wd1 futB wd2 wdt,
    poll {| handle := None; time := 2 |} 7 (fresh 30) = Done (Pending, futA, wd1) /\
    poll {| handle := None; time := 5 |} 8 (drop_handle (handle futA) wd1)
      = Done (Pending, futB, wd2) /\
    ticks 2 wd2 = Done wdt /\ woken wdt = [8] /\
    poll futB 8 wdt = Done (Ready (Ok tt), futB, wdt).
Proof. apply (dropped_sleep_wakes_reuser 2 5 30 7 8); lia. Defined.

End TimerExtras.

Module TaskListExtras.
Import TaskList.

Section L.
Context {C : Type}.

Lemma lays_out_new (f : C) : lays_out (new f) [f].
Proof. split; [done|]. intros [|i]; done. Qed.

Lemma lays_out_append (t : @Task C) xs g : lays_out t xs -> lays_out (append t (new g)) (g :: xs).
Proof.
  intros [Hl Hg]. split.
  - unfold TaskList.length in *. simpl. lia.
  - intros [|i]; [done|]. simpl. apply Hg.
Qed.

Lemma lays_out_fold (fs : list C) t xs :
  lays_out t xs -> lays_out (fold_left (fun l g => append l (new g)) fs t) (rev fs ++ xs).
Proof.
  revert t xs. induction fs as [|g fs IH]; intros t xs H; simpl; [done|].
  rewrite <- app_assoc. simpl. apply IH. by apply lays_out_append.
Qed.

(** X17. The list the [tasks!] macro builds from futures [f, f1, ..., fn]
    has [n + 1] nodes, and [get(i)] followed by [content()] yields them in
    reverse order: index 0 holds the last future appended, index [n] the
    first one, and every index past the end gives [None]. *)
Theorem tasks_layout (f : C) (fs : list C) (i : nat) :
  TaskList.length (tasks f fs) = S (List.length fs) /\
  (get (tasks f fs) i ≫= content) = rev (f :: fs) !! i.
Proof.
  destruct (lays_out_fold fs (new f) [f] (lays_out_new f)) as [Hl Hg].
  unfold tasks. split.
  - rewrite Hl, length_app, length_rev. simpl. lia.
  - rewrite Hg. done.
Qed.

End L.
End TaskListExtras.

Module ExecutorExtras.
Import Executor.

Lemma forallb_lookup {A} (f : A -> bool) l i x : forallb f l = true -> l !! i = Some x -> f x = true.
Proof.
  revert i. induction l as [|y l IH]; intros [|i]; simpl; try discriminate.
  - intros H [= ->]. apply andb_true_iff in H. tauto.
  - intros H Hi. apply andb_true_iff in H as [_ H]. eauto.
Qed.

Lemma wake_all_length ws ready : length (wake_all ws ready) = length ready.
Proof.
  unfold wake_all. revert ready. induction ws as [|w ws IH]; intros ready; simpl; [done|].
  rewrite IH. apply length_insert.
Qed.

Section F.
Context {Fut : Type} (poll_fut : nat -> Fut -> TaskPoll * Fut * list nat)
        (irq : nat -> nat -> list nat).

Lemma visit_ok n p rt log s :
  sized n rt ->
  exists rt' log', visit poll_fut irq p rt log s = Ret (rt', log') /\ sized n rt' /\
    (forall i, never_ready poll_fut i -> done <$> metadata rt !! i = Some false ->
       done <$> metadata rt' !! i = Some false).
Proof.
  intros (Hm & Hw & Ht). unfold visit. cbn [metadata wakers tasks].
  destruct (metadata rt !! s) as [entry|] eqn:Es;
    [|do 2 eexists; split; [reflexivity|]; split; [repeat split; simpl; rewrite ?wake_all_length; lia|done]].
  destruct (wake_all (irq p s) (wakers rt) !! s) as [ready|] eqn:Ew;
    [|do 2 eexists; split; [reflexivity|]; split; [repeat split; simpl; rewrite ?wake_all_length; lia|done]].
  destruct (negb ready || done entry) eqn:Ec;
    [do 2 eexists; split; [reflexivity|]; split; [repeat split; simpl; rewrite ?wake_all_length; lia|done]|].
  cbn [metadata wakers tasks].
  destruct (lookup_lt_is_Some_2 (tasks rt) s) as [f Hf].
  { apply lookup_lt_Some in Es. lia. }
  rewrite Hf. destruct (poll_fut s f) as [[res f'] woken] eqn:Hp.
  do 2 eexists. split; [reflexivity|]. split.
  - repeat split; simpl; rewrite ?wake_all_length, ?length_insert, ?wake_all_length; try lia.
    destruct res; simpl; rewrite ?length_insert; lia.
  - intros i Hi Hd. destruct res; simpl; [done|].
    destruct (decide (i = s)) as [->|Hne].
    + specialize (Hi f). rewrite Hp in Hi. discriminate.
    + by rewrite list_lookup_insert_ne by congruence.
Qed.

Lemma visit_all_ok n p slots rt log :
  sized n rt ->
  exists rt' log', visit_all poll_fut irq p slots rt log = Ret (rt', log') /\ sized n rt' /\
    (forall i, never_ready poll_fut i -> done <$> metadata rt !! i = Some false ->
       done <$> metadata rt' !! i = Some false).
Proof.
  revert rt log. induction slots as [|s slots IH]; intros rt log H; simpl.
  - eauto.
  - destruct (visit_ok n p rt log s H) as (rt1 & log1 & -> & H1 & D1). simpl.
    destruct (IH rt1 log1 H1) as (rt2 & log2 & -> & H2 & D2). eauto 10.
Qed.

Lemma new_sized (futs : list Fut) : sized (length futs) (new futs).
Proof. repeat split; simpl; rewrite ?length_imap, ?length_replicate; done. Qed.

Lemma new_not_done (futs : list Fut) i : i < length futs -> done <$> metadata (new futs) !! i = Some false.
Proof.
  intros Hi. simpl. rewrite list_lookup_imap.
  destruct (lookup_lt_is_Some_2 futs i Hi) as [x ->]. done.
Qed.

Lemma pass_loop (futs : list Fut) p rt log :
  sized (length futs) rt ->
  exists rt' log', visit_all poll_fut irq p (seq 0 (length futs)) rt log = Ret (rt', log') /\
    sized (length futs) rt' /\
    (forall i, never_ready poll_fut i -> done <$> metadata rt !! i = Some false ->
       done <$> metadata rt' !! i = Some false) /\
    pass poll_fut irq p rt log = if forallb done (metadata rt') then Panic else Ret (rt', log').
Proof.
  intros Hs. destruct (visit_all_ok (length futs) p (seq 0 (length futs)) rt log Hs)
    as (rt' & log' & Hv & Hs' & Hd).
  exists rt', log'. split; [done|]. split; [done|]. split; [done|].
  unfold pass. destruct Hs as (Hm & Hw & _). rewrite Hm, Hw, Nat.min_id, Hv. done.
Qed.

(** X18. In [Runtime::run] on a runtime from [Runtime::new], the loop over
    the tasks never fails (the [get_mut(id).unwrap()] always finds the
    task), the three arrays keep the number of tasks, and a pass panics
    exactly when every task is done after its loop: the [assert!] is the
    only way [run] stops. *)
Theorem run_panics_only_at_assert (futs : list Fut) (m : nat) rt log :
  run_passes poll_fut irq m (new futs) [] = Ret (rt, log) ->
  sized (length futs) rt /\
  exists rt' log', visit_all poll_fut irq m (seq 0 (length futs)) rt log = Ret (rt', log') /\
    sized (length futs) rt' /\
    (run_passes poll_fut irq (S m) (new futs) [] = Panic <-> forallb done (metadata rt') = true).
Proof.
  assert (Hsz : forall n rt log, run_passes poll_fut irq n (new futs) [] = Ret (rt, log) ->
            sized (length futs) rt).
  { induction n as [|n IH]; intros rt0 log0 Hr; simpl in Hr.
    - injection Hr as <- <-. apply new_sized.
    - destruct (run_passes poll_fut irq n (new futs) []) as [[rt1 log1]|] eqn:E; [|discriminate].
      simpl in Hr. destruct (pass_loop futs n rt1 log1 (IH _ _ eq_refl))
        as (rt' & log' & _ & Hs' & _ & Hp).
      rewrite Hp in Hr. destruct (forallb _ _); [discriminate|]. by injection Hr as <- <-. }
  intros Hr. pose proof (Hsz m rt log Hr) as Hs. split; [done|].
  destruct (pass_loop futs m rt log Hs) as (rt' & log' & Hv & Hs' & _ & Hp).
  exists rt', log'. split; [done|]. split; [done|].
  simpl. rewrite Hr. simpl. rewrite Hp. destruct (forallb _ _); split; done.
Qed.

(** X19. As long as one task of the runtime never completes (every poll of
    its future returns [Pending]), [Runtime::run] never panics: every
    pass returns, and that task is never marked done. *)
Theorem run_never_stops_with_pending_task (futs : list Fut) (i n : nat) :
  i < length futs -> never_ready poll_fut i ->
  exists rt log, run_passes poll_fut irq n (new futs) [] = Ret (rt, log) /\
    done <$> metadata rt !! i = Some false.
Proof.
  intros Hi Hn.
  assert (H : exists rt log, run_passes poll_fut irq n (new futs) [] = Ret (rt, log) /\
             sized (length futs) rt /\ done <$> metadata rt !! i = Some false).
  { induction n as [|n IH]; simpl.
    - exists (new futs), []. split; [done|]. split; [apply new_sized|]. by apply new_not_done.
    - destruct IH as (rt & log & Hr & Hs & Hd). rewrite Hr. simpl.
      destruct (pass_loop futs n rt log Hs) as (rt' & log' & _ & Hs' & Hd' & Hp).
      rewrite Hp. specialize (Hd' i Hn Hd).
      destruct (forallb done (metadata rt')) eqn:E.
      + destruct (metadata rt' !! i) as [e|] eqn:Ee; [|discriminate].
        simpl in Hd'. injection Hd' as Hde.
        pose proof (forallb_lookup done _ _ _ E Ee). congruence.
      + exists rt', log'. done. }
  destruct H as (rt & log & Hr & _ & Hd). eauto.
Qed.

End F.
Lemma run_panics_only_at_assert_witness :
  sized (length [1; 3]) (new [1; 3]) /\
  exists rt' log', visit_all ExecutorSamples.sample_poll ExecutorSamples.sample_irq 0
                     (seq 0 (length [1; 3])) (new [1; 3]) [] = Ret (rt', log') /\
    sized (length [1; 3]) rt' /\
    (run_passes ExecutorSamples.sample_poll ExecutorSamples.sample_irq 1 (new [1; 3]) [] = Panic
     <-> forallb done (metadata rt') = true).
Proof. apply (run_panics_only_at_assert _ _ [1; 3] 0). reflexivity. Defined.

Lemma run_never_stops_with_pending_task_witness :
  exists rt log,
    run_passes (fun t f => if Nat.eqb t 1 then (TPending, f, [t]) else ExecutorSamples.sample_poll t f)
      ExecutorSamples.sample_irq 5 (new [0; 2]) [] = Ret (rt, log) /\
    done <$> metadata rt !! 1 = Some false.
Proof.
  apply (run_never_stops_with_pending_task _ _ [0; 2] 1 5).
  - simpl. lia.
  - intros f. reflexivity.
Defined.

End ExecutorExtras.

Module QueueExtras.
Import Timer(exec, Done, Crash, Spin, ebind).
Import Queue QueueInv.
Section F.
Context {T : Type}.

Lemma lookup_foldr_delete (h : gmap nat (@Buffer T)) (l : list nat) r :
  foldr delete h l !! r = if decide (r ∈ l) then None else h !! r.
Proof.
  induction l as [|p l IH]; cbn [foldr].
  - case_decide as Hr; [by apply elem_of_nil in Hr|done].
  - destruct (decide (r = p)) as [->|Hr].
    + rewrite lookup_delete_eq. destruct (decide (p ∈ p :: l)) as [_|Hn]; [done|]. exfalso. apply Hn. by left.
    + rewrite lookup_delete_ne by congruence. rewrite IH.
      case_decide as H1; case_decide as H2; try done; exfalso.
      * apply H2. by right.
      * apply elem_of_cons in H2 as [|]; auto.
Qed.

Lemma foldr_delete_comm (h : gmap nat (@Buffer T)) (l : list nat) p :
  foldr delete (delete p h) l = delete p (foldr delete h l).
Proof. induction l as [|q l IH]; simpl; [done|]. rewrite IH. apply delete_delete. Qed.

Lemma foldr_delete_insert (h : gmap nat (@Buffer T)) (l : list nat) p b :
  p ∈ l -> foldr delete (<[p := b]> h) l = foldr delete h l.
Proof.
  intros Hp. apply map_eq. intros r. rewrite !lookup_foldr_delete.
  destruct (decide (r ∈ l)); [done|]. rewrite lookup_insert_ne; [done|]. intros ->. done.
Qed.

Lemma rx_drop_chain (l : list nat) (h : gmap nat (@Buffer T)) fuel :
  NoDup l -> length l < fuel ->
  (forall i q, l !! i = Some q -> exists b, h !! q = Some b /\ next b = l !! S i /\ ref_count b = 0%Z) ->
  rx_drop fuel h (l !! 0) = Done (foldr delete h l).
Proof.
  revert h fuel. induction l as [|p l IH]; intros h fuel Hnd Hf Hc; destruct fuel as [|fuel]; simpl in *; try lia.
  - done.
  - destruct (Hc 0 p eq_refl) as (b & Hb & Hn & Hr). rewrite Hb, Hr. simpl. rewrite Hn.
    apply NoDup_cons in Hnd as [Hp Hnd].
    rewrite IH; [by rewrite foldr_delete_comm|done|lia|].
    intros i q Hq. destruct (Hc (S i) q Hq) as (b' & Hb' & Hn' & Hr').
    exists b'. rewrite lookup_delete_ne; [done|].
    intros ->. apply Hp. by eapply list_elem_of_lookup_2.
Qed.

Lemma rx_drop_stop (l : list nat) t bt (h : gmap nat (@Buffer T)) fuel :
  NoDup (l ++ [t]) -> length l < fuel ->
  (forall i q, l !! i = Some q ->
     exists b, h !! q = Some b /\ next b = (l ++ [t]) !! S i /\ ref_count b = 0%Z) ->
  h !! t = Some bt -> ref_count bt <> 0%Z ->
  rx_drop fuel h ((l ++ [t]) !! 0) = Done (foldr delete h l).
Proof.
  revert h fuel. induction l as [|p l IH]; intros h fuel Hnd Hf Hc Ht Hbt;
    destruct fuel as [|fuel]; simpl in *; try lia.
  - rewrite Ht. by rewrite (proj2 (Z.eqb_neq _ _) Hbt).
  - destruct (Hc 0 p eq_refl) as (b & Hb & Hn & Hr). rewrite Hb, Hr. simpl. rewrite Hn.
    apply NoDup_cons in Hnd as [Hp Hnd].
    rewrite (IH (delete p h) fuel); [by rewrite foldr_delete_comm|done|lia| | |done].
    + intros i q Hq. destruct (Hc (S i) q Hq) as (b' & Hb' & Hn' & Hr').
      exists b'. rewrite lookup_delete_ne; [done|].
      intros ->. apply Hp. apply elem_of_app. left. by eapply list_elem_of_lookup_2.
    + rewrite lookup_delete_ne; [done|]. intros ->. apply Hp. apply elem_of_app. right. by left.
Qed.

Lemma enqueues_inv (al : gmap nat (@Buffer T) -> nat) (al_fresh : forall h, h !! al h = None)
    (w : @World T) q xs fuel :
  Inv w q -> 2 <= fuel ->
  exists w', run al fuel w (map Enqueue xs) = Done (w', []) /\ Inv w' (q ++ xs).
Proof.
  revert w q. induction xs as [|x xs IH]; intros w q Hi Hf; cbn [map run].
  - exists w. by rewrite app_nil_r.
  - destruct (QueueFacts.enqueue_ok al al_fresh w q x fuel Hi Hf) as (w1 & E & Hi1).
    rewrite E. cbn [ebind].
    destruct (IH w1 _ Hi1 Hf) as (w2 & E2 & Hi2). exists w2. split; [done|].
    by rewrite <- app_assoc in Hi2.
Qed.

(** X20. Dropping the two ends of a queue: the buffers from [head] to
    [tail] form a chain along [next]; when the [Tx] is dropped first, the
    [Rx]'s drop frees every buffer of the chain (and nothing else); when
    the [Rx] is dropped while the [Tx] is alive, it frees every buffer but
    the tail one, which the [Tx] still references. *)
Theorem queue_drops (w : @World T) (q : list T) :
  Inv w q ->
  exists ps, ps !! 0 = Some (head w) /\ last ps = Some (tail w) /\ NoDup ps /\
    (forall i p, ps !! i = Some p -> exists b, heap w !! p = Some b /\ next b = ps !! S i) /\
    forall fuel, length ps < fuel ->
      rx_drop fuel (heap w) (Some (head w)) = Done (foldr delete (heap w) (removelast ps)) /\
      exists w', tx_drop w = Done w' /\
        rx_drop fuel (heap w') (Some (head w')) = Done (foldr delete (heap w) ps).
Proof.
  intros (ps & cs & Hnd & Hlen & Hhd & Hlast & Hpt & _ & _).
  assert (Hb : forall i p, ps !! i = Some p ->
            heap w !! p = Some (mkbuf (fst (default (0, []) (cs !! i))) (snd (default (0, []) (cs !! i)))
                                 (ps !! S i))).
  { intros i p Hp. destruct (lookup_lt_is_Some_2 cs i) as [[c xs] Hc].
    { rewrite <- Hlen. by eapply lookup_lt_Some. }
    rewrite Hc. simpl. by destruct (Hpt i p c xs Hp Hc) as [-> _]. }
  exists ps. split; [done|]. split; [done|]. split; [done|]. split.
  { intros i p Hp. eexists. split; [by apply Hb|]. done. }
  intros fuel Hf.
  assert (Hne : ps <> []) by (intros ->; discriminate).
  destruct (exists_last Hne) as (ps0 & t & Eps). subst ps.
  rewrite last_snoc in Hlast. injection Hlast as Ht.
  rewrite length_app in Hf. simpl in Hf.
  assert (Hi : forall i p, (ps0 ++ [t]) !! i = Some p -> S i < length (ps0 ++ [t]) ->
            exists b, heap w !! p = Some b /\ next b = (ps0 ++ [t]) !! S i /\ ref_count b = 0%Z).
  { intros i p Hp Hl. eexists. split; [by apply Hb|]. simpl. split; [done|].
    destruct (lookup_lt_is_Some_2 _ _ Hl) as [z ->]. done. }
  assert (Hbt : exists bt, heap w !! t = Some bt /\ next bt = None /\ ref_count bt = 1%Z).
  { assert (Hl : (ps0 ++ [t]) !! length ps0 = Some t) by (rewrite lookup_app_r, Nat.sub_diag by lia; done).
    eexists. split; [by apply Hb in Hl|].
    assert (Hn : (ps0 ++ [t]) !! S (length ps0) = None)
      by (apply lookup_ge_None_2; rewrite length_app; simpl; lia).
    rewrite Hn. done. }
  destruct Hbt as (bt & Hbt & Hnt & Hrt).
  split.
  - rewrite removelast_last. rewrite <- Hhd.
    apply (rx_drop_stop ps0 t bt); try done; [lia| |lia].
    intros i p Hp. apply Hi; [by apply lookup_app_l_Some|].
    apply lookup_lt_Some in Hp. rewrite length_app. simpl. lia.
  - unfold tx_drop. rewrite <- Ht, Hbt. eexists. split; [reflexivity|].
    simpl. rewrite <- Hhd.
    rewrite rx_drop_chain; [|done|rewrite length_app; simpl; lia|].
    + f_equal. apply foldr_delete_insert. apply elem_of_app. right. by left.
    + intros i p Hp. destruct (decide (p = t)) as [->|Hpt'].
      * rewrite lookup_insert_eq. eexists. split; [reflexivity|]. simpl.
        assert (i = length ps0) as ->.
        { apply NoDup_lookup with (l := ps0 ++ [t]) (x := t); [done|done|].
          rewrite lookup_app_r, Nat.sub_diag by lia. done. }
        split; [rewrite Hnt; symmetry; apply lookup_ge_None_2; rewrite length_app; simpl; lia|].
        rewrite Hrt. done.
      * rewrite lookup_insert_ne by congruence. apply Hi; [done|].
        destruct (decide (S i < length (ps0 ++ [t]))) as [|Hge]; [done|]. exfalso.
        apply lookup_lt_Some in Hp as Hlt. rewrite length_app in Hlt, Hge. simpl in Hlt, Hge.
        assert (i = length ps0) as -> by lia.
        rewrite lookup_app_r, Nat.sub_diag in Hp by lia. simpl in Hp. congruence.
Qed.

(** X22. [Rx::try_dequeue] on a queue with no pending item returns
    [Err(Empty)] after looking at the head buffer only (one round of its
    loop), and leaves the queue exactly as it was. *)
Theorem dequeue_empty_unchanged (w : @World T) (fuel : nat) :
  Inv w [] -> 1 <= fuel -> rx_try_dequeue fuel w = Done (w, Err Empty).
Proof.
  intros (ps & cs & Hnd & Hlen & Hhd & Hlast & Hpt & Hrx & Hq) Hf.
  destruct ps as [|p0 ps']; [discriminate|]. injection Hhd as Hp0.
  destruct cs as [|[c0 xs0] cs']; [simpl in Hlen; lia|].
  destruct Hrx as (c0' & xs0' & Hc0 & Hr). injection Hc0 as <- <-.
  simpl in Hq. symmetry in Hq. apply app_eq_nil in Hq as [-> Hq].
  destruct (Hpt 0 p0 c0 [] eq_refl eq_refl) as (Hb0 & Hs0 & _).
  destruct ps' as [|p1 ps''].
  2: { destruct cs' as [|[c1 xs1] cs'']; [simpl in Hlen; lia|].
       destruct (Hpt 1 p1 c1 xs1 eq_refl eq_refl) as (_ & _ & Hz).
       destruct (Hz ltac:(lia)) as [_ Hx]. simpl in Hq. apply app_eq_nil in Hq as [-> _]. done. }
  destruct fuel as [|fuel]; [lia|].
  unfold rx_try_dequeue. cbn [rx_loop]. rewrite <- Hp0, Hb0. simpl in Hs0.
  cbn [entries mkbuf]. rewrite QueueFacts.entries_length by (simpl; lia).
  destruct (N <? rx_pos w) eqn:Elt; [apply Nat.ltb_lt in Elt; simpl in Hs0; lia|].
  rewrite QueueFacts.drop_entries, QueueFacts.first_set_consumed by lia.
  cbn [map app length]. rewrite QueueFacts.first_set_default. done.
Qed.

End F.
(** After nine items the queue spans three buffers, at addresses 0, 1
    and 2. *)
Lemma queue_drops_witness :
  let w9 := QueueSamples.sample_world 9 in
  exists ps, ps = [0; 1; 2] /\
    ps !! 0 = Some (head w9) /\ last ps = Some (tail w9) /\ NoDup ps /\
    (forall i p, ps !! i = Some p -> exists b, heap w9 !! p = Some b /\ next b = ps !! S i) /\
    forall fuel, length ps < fuel ->
      rx_drop fuel (heap w9) (Some (head w9)) = Done (foldr delete (heap w9) (removelast ps)) /\
      exists w', tx_drop w9 = Done w' /\
        rx_drop fuel (heap w') (Some (head w')) = Done (foldr delete (heap w9) ps).
Proof.
  intros w9.
  assert (Hf : forall h, h !! QueueSamples.sample_alloc h = None).
  { intros h. apply not_elem_of_dom. exact (is_fresh (dom h)). }
  assert (Hi : Inv w9 (seq 1 9)).
  { destruct (enqueues_inv QueueSamples.sample_alloc Hf (queue QueueSamples.sample_alloc ∅) []
                (seq 1 9) 2 (QueueFacts.queue_inv _ _) ltac:(lia)) as (w' & E & Hi).
    unfold w9, QueueSamples.sample_world. rewrite E. exact Hi. }
  destruct (queue_drops w9 _ Hi) as (ps & H0 & Hl & Hnd & Hch & Hd).
  exists ps. split; [|done].
  assert (Hh : head w9 = 0) by (vm_compute; reflexivity). rewrite Hh in H0.
  destruct (Hch 0 0 H0) as (b0 & Hb0 & Hn0). vm_compute in Hb0. injection Hb0 as <-.
  simpl in Hn0. symmetry in Hn0.
  destruct (Hch 1 1 Hn0) as (b1 & Hb1 & Hn1). vm_compute in Hb1. injection Hb1 as <-.
  simpl in Hn1. symmetry in Hn1.
  destruct (Hch 2 2 Hn1) as (b2 & Hb2 & Hn2). vm_compute in Hb2. injection Hb2 as <-.
  simpl in Hn2. symmetry in Hn2.
  destruct ps as [|a [|b [|c [|d ps]]]]; simpl in *; congruence.
Defined.

Lemma dequeue_empty_unchanged_witness :
  rx_try_dequeue 1 (queue QueueSamples.sample_alloc ∅) = Done (queue QueueSamples.sample_alloc ∅, Err Empty).
Proof. apply dequeue_empty_unchanged; [apply QueueFacts.queue_inv|lia]. Defined.

End QueueExtras.

